(* Shallow embedding of the process compiler of qsdsan
   (src/qsdsan/_process.py: Process, Processes, CompiledProcesses, and the
   parameter setter of src/qsdsan/processes/_pm2.py).

   Conventions of the model.
   - A Python instance [__dict__] is an insertion-ordered association list
     [pydict]: assigning an existing key replaces the value in place,
     assigning a new key appends it, as CPython dicts do.
   - Numeric coefficients and the value of a rate expression are rationals
     [Q]; a sympy expression is represented by its value at a fixed state,
     which commutes with the sums and products the code builds.
   - Python exceptions are the constructors of [exn]; a fallible function
     returns [result]. *)

From Stdlib Require Import List String Bool Arith Lia QArith Qabs.
From Stdlib Require Import Sorted Permutation Orders Mergesort OrdersEx Lqa.
Import ListNotations.
Open Scope nat_scope.
Open Scope string_scope.
Set Warnings "-register-all".
Abbreviation length := List.length.

(* ------------------------------------------------------------------ *)
(** * Exceptions and the result monad *)

Inductive exn : Type :=
| AttributeError (attr : string)
| TypeError (msg : string)
| ValueError (msg : string)
| KeyError (key : string)
| RuntimeError (msg : string)
| ZeroDivisionError (msg : string)
| UndefinedProcess (ID : string).

Inductive result (A : Type) : Type :=
| Ok (a : A)
| Err (e : exn).
Arguments Ok {A} a.
Arguments Err {A} e.

Definition rbind {A B} (m : result A) (k : A -> result B) : result B :=
  match m with
  | Ok a => k a
  | Err e => Err e
  end.

Notation "'let*' x ':=' m 'in' k" := (rbind m (fun x => k))
  (at level 200, x name, m at level 100, k at level 200).

Fixpoint mapM {A B} (f : A -> result B) (l : list A) : result (list B) :=
  match l with
  | [] => Ok []
  | x :: t => let* y := f x in let* ys := mapM f t in Ok (y :: ys)
  end.

(* ------------------------------------------------------------------ *)
(** * Python dicts *)

Definition pydict (V : Type) := list (string * V).

Fixpoint dict_get {V} (d : pydict V) (k : string) : option V :=
  match d with
  | [] => None
  | (k', v) :: t => if String.eqb k k' then Some v else dict_get t k
  end.

(** [d[k] = v] *)
Fixpoint dict_set {V} (d : pydict V) (k : string) (v : V) : pydict V :=
  match d with
  | [] => [(k, v)]
  | (k', v') :: t =>
      if String.eqb k k' then (k', v) :: t else (k', v') :: dict_set t k v
  end.

(** [d1.update(d2)] *)
Definition dict_update {V} (d1 d2 : pydict V) : pydict V :=
  fold_left (fun d kv => dict_set d (fst kv) (snd kv)) d2 d1.

(** [dict(pairs)] *)
Definition dict_of_pairs {V} (l : list (string * V)) : pydict V :=
  dict_update [] l.

Definition keys {V} (d : pydict V) : list string := map fst d.
Definition values {V} (d : pydict V) : list V := map snd d.

(** [l[k] = v] on a list of length > k (the code only writes in range). *)
Fixpoint set_nth {A} (l : list A) (k : nat) (v : A) : list A :=
  match l, k with
  | [], _ => []
  | _ :: t, O => v :: t
  | x :: t, S k' => x :: set_nth t k' v
  end.

(* ------------------------------------------------------------------ *)
(** * Process *)

(** The instance state of a [Process] after [__init__]: [_ID],
    [_components] (the IDs of the registry it was parsed against),
    [_stoichiometry] (dense, aligned with [_components]; [proc_is_ndarray]
    tells whether the parser returned a numpy array), [_rate_equation],
    [_parameters] (name -> symbol), [_ref_component], [_conserved_for]. *)
Record Process : Type := mkProcess {
  proc_ID : string;
  proc_components : list string;
  proc_stoichiometry : list Q;
  proc_is_ndarray : bool;
  proc_rate_equation : Q;
  proc_parameters : pydict string;
  proc_ref_component : string;
  proc_conserved_for : list string
}.

(** [Process.stoichiometry]:
    [allcmps = dict(zip(self._components.IDs, self._stoichiometry))]
    [return {k:v for k,v in allcmps.items() if v != 0}] *)
Definition stoichiometry (p : Process) : pydict Q :=
  filter (fun kv => negb (Qeq_bool (snd kv) 0))
         (dict_of_pairs (combine (proc_components p) (proc_stoichiometry p))).

(* ------------------------------------------------------------------ *)
(** * Component registry *)

(** Modelled from the spec: the merged registry [Components([...])] followed
    by [cmps.compile()] (qsdsan's _components module is not among the
    sources). The spec: "ability to construct a merged registry from a list
    of components (de-duplicated by ID)", "the union (by ID) of every
    process's own component set, in first-seen order". *)
Definition Components_merge (cmps : list string) : list string :=
  fold_left (fun acc c => if existsb (String.eqb c) acc then acc else (acc ++ [c])%list)
            cmps [].

(** [cmps._index[ID]]: position of a component ID in the registry. *)
Fixpoint cmp_index (cmps : list string) (c : string) : option nat :=
  match cmps with
  | [] => None
  | c' :: t =>
      if String.eqb c c' then Some O
      else match cmp_index t c with Some k => Some (S k) | None => None end
  end.

(* ------------------------------------------------------------------ *)
(** * Collections: the values stored in a [Processes] __dict__ *)

(** A [Processes] object keeps its members in its instance __dict__ under
    their IDs; [_compile] adds the derived fields to the same dict. *)
Inductive field : Type :=
| FProc (p : Process)
| FTuple (fs : list field)
| FSize (n : nat)
| FIDs (IDs : list string)
| FIndex (ix : pydict nat)
| FComponents (cmps : list string)
| FParameters (params : pydict string)
| FStoichiometry (M : list (list Q))
| FRateEquations (rs : list Q)
| FProductionRates (v : list Q).

(** [i.ID] on a value of the dict. *)
Definition getID (f : field) : result string :=
  match f with
  | FProc p => Ok (proc_ID p)
  | _ => Err (AttributeError "ID")
  end.

(** Reading [i._components] and the other private fields of a process. *)
Definition as_process (f : field) : result Process :=
  match f with
  | FProc p => Ok p
  | _ => Err (AttributeError "_components")
  end.

(** [Processes.__new__]: [for i in processes: setfield(self, i.ID, i)]. *)
Fixpoint Processes_fill (d : pydict field) (l : list field) : result (pydict field) :=
  match l with
  | [] => Ok d
  | f :: t => let* ID := getID f in Processes_fill (dict_set d ID f) t
  end.

Definition Processes_new (ps : list field) : result (pydict field) :=
  Processes_fill [] ps.

(** The dict of a collection built from a list of processes. *)
Definition processes_dict (ps : list Process) : pydict field :=
  fold_left (fun d p => dict_set d (proc_ID p) (FProc p)) ps [].

(* ------------------------------------------------------------------ *)
(** * CompiledProcesses._compile *)

(** [for cmp, coeff in i.stoichiometry.items(): stch[cmps._index[cmp]] = coeff] *)
Fixpoint fill_row (cmps : list string) (stch : list Q) (entries : pydict Q)
  : result (list Q) :=
  match entries with
  | [] => Ok stch
  | (c, v) :: t =>
      match cmp_index cmps c with
      | Some k => fill_row cmps (set_nth stch k v) t
      | None => Err (KeyError c)
      end
  end.

(** [stch = [0]*cmps.size] followed by the loop above, for each process. *)
Definition stoich_row (cmps : list string) (p : Process) : result (list Q) :=
  fill_row cmps (repeat 0%Q (List.length cmps)) (stoichiometry p).

Definition Qsum (l : list Q) : Q := fold_right Qplus 0%Q l.

(** [Matrix(M_stch).T * Matrix(rate_eqs)]: a column with one entry per
    component, entry [j] being [sum_i M[i][j] * rate_eqs[i]]. *)
Definition matT_mul_vec (ncols : nat) (M : list (list Q)) (r : list Q) : list Q :=
  map (fun j => Qsum (map (fun rr => (nth j (fst rr) 0 * snd rr)%Q) (combine M r)))
      (seq 0 ncols).

Definition _compile (dct : pydict field) : result (pydict field) :=
  let processes := values dct in
  let* IDs := mapM getID processes in
  let size := List.length IDs in
  let index := dict_of_pairs (combine IDs (seq 0 size)) in
  let dct := dict_set dct "tuple" (FTuple processes) in
  let dct := dict_set dct "size" (FSize size) in
  let dct := dict_set dct "IDs" (FIDs IDs) in
  let dct := dict_set dct "_index" (FIndex index) in
  let* procs := mapM as_process processes in
  let cmps := Components_merge (flat_map proc_components procs) in
  let dct := dict_set dct "_components" (FComponents cmps) in
  let rate_eqs := map proc_rate_equation procs in
  let params := fold_left (fun acc p => dict_update acc (proc_parameters p)) procs [] in
  let* M_stch := mapM (stoich_row cmps) procs in
  let dct := dict_set dct "_parameters" (FParameters params) in
  let dct := dict_set dct "_stoichiometry" (FStoichiometry M_stch) in
  let dct := dict_set dct "_rate_equations" (FRateEquations rate_eqs) in
  Ok (dict_set dct "_production_rates"
         (FProductionRates (matT_mul_vec (List.length cmps) M_stch rate_eqs))).

(** Read views of a compiled collection. *)
Definition get_IDs (d : pydict field) : list string :=
  match dict_get d "IDs" with Some (FIDs l) => l | _ => [] end.
Definition get_size (d : pydict field) : option nat :=
  match dict_get d "size" with Some (FSize n) => Some n | _ => None end.
Definition get_components (d : pydict field) : list string :=
  match dict_get d "_components" with Some (FComponents l) => l | _ => [] end.
Definition get_stoichiometry (d : pydict field) : list (list Q) :=
  match dict_get d "_stoichiometry" with Some (FStoichiometry m) => m | _ => [] end.
Definition get_rate_equations (d : pydict field) : list Q :=
  match dict_get d "_rate_equations" with Some (FRateEquations r) => r | _ => [] end.

(** [CompiledProcesses.production_rates]:
    [dict(zip(self._components.IDs, self._production_rates))] *)
Definition production_rates (d : pydict field) : pydict Q :=
  match dict_get d "_production_rates" with
  | Some (FProductionRates v) => dict_of_pairs (combine (get_components d) v)
  | _ => []
  end.

(* ------------------------------------------------------------------ *)
(** * Collection objects and their methods *)

Inductive pyclass : Type := Processes_cls | CompiledProcesses_cls.

(** A collection object: its class (which [mycompile] swaps in place) and
    its instance __dict__. *)
Record pyobj : Type := mkObj { obj_class : pyclass; obj_dict : pydict field }.

(** Names defined in the class bodies (methods and properties). *)
Definition Processes_class_attrs : list string :=
  ["__new__"; "__setattr__"; "__setitem__"; "__getitem__"; "copy"; "append";
   "extend"; "subgroup"; "mycompile"; "show"; "_ipython_display_"; "__len__";
   "__contains__"; "__iter__"; "__repr__"].

Definition CompiledProcesses_class_attrs : list string :=
  ["_cache"; "__new__"; "compile"; "_compile"; "parameters"; "stoichiometry";
   "rate_equations"; "production_rates"; "subgroup"; "index"; "indices";
   "__contains__"; "copy"].

Definition class_attrs (c : pyclass) : list string :=
  match c with
  | Processes_cls => Processes_class_attrs
  | CompiledProcesses_cls => (CompiledProcesses_class_attrs ++ Processes_class_attrs)%list
  end.

(** A value obtained by attribute lookup. *)
Inductive pyval : Type :=
| PField (f : field)
| PMethod (c : pyclass) (name : string)
| PList (l : list pyval).

(** [getattr(obj, name)]: the instance __dict__ first, then the class. *)
Definition getattr_obj (o : pyobj) (name : string) : result pyval :=
  match dict_get (obj_dict o) name with
  | Some f => Ok (PField f)
  | None =>
      if existsb (String.eqb name) (class_attrs (obj_class o))
      then Ok (PMethod (obj_class o) name)
      else Err (AttributeError name)
  end.

(** Modelled from the spec: [read_only(methods=('append', 'extend',
    '__setitem__'))] of thermosteam.utils, which replaces the listed methods
    of the decorated class; the spec: "append, extend, and direct item
    assignment must fail with an explicit read-only error". *)
Definition read_only_methods : list string := ["append"; "extend"; "__setitem__"].
Definition read_only_error : exn := TypeError "'CompiledProcesses' object is read-only".

(** The implementation a mutator name resolves to on a class. *)
Inductive mutator_impl : Type :=
| Impl_read_only
| Impl_Processes_append
| Impl_Processes_extend
| Impl_Processes_setitem.

Definition Processes_mutator (name : string) : option mutator_impl :=
  if String.eqb name "append" then Some Impl_Processes_append
  else if String.eqb name "extend" then Some Impl_Processes_extend
  else if String.eqb name "__setitem__" then Some Impl_Processes_setitem
  else None.

Definition resolve_mutator (c : pyclass) (name : string) : option mutator_impl :=
  match c with
  | Processes_cls => Processes_mutator name
  | CompiledProcesses_cls =>
      if existsb (String.eqb name) read_only_methods then Some Impl_read_only
      else Processes_mutator name
  end.

(** [Processes.append]; the element is any value the caller passes. *)
Definition Processes_append (d : pydict field) (process : field)
  : pydict field * result unit :=
  match process with
  | FProc p =>
      if existsb (String.eqb (proc_ID p)) (keys d)
      then (d, Err (ValueError (proc_ID p ++ " already defined in processes")))
      else (dict_set d (proc_ID p) process, Ok tt)
  | _ => (d, Err (TypeError "only 'Process' objects can be appended"))
  end.

(** The argument of [extend]: another collection, or a plain iterable. *)
Inductive extend_arg : Type :=
| ExtendCollection (o : pyobj)
| ExtendIterable (l : list field).

(** [for process in processes: self.append(process)]: the entries appended
    before a failing element stay in the dict. [self.append] is looked up
    on every iteration, in the instance __dict__ first: once a member is
    stored under the ID ["append"], the lookup finds it and calling it
    raises [TypeError]. *)
Fixpoint append_all (d : pydict field) (l : list field) : pydict field * result unit :=
  match l with
  | [] => (d, Ok tt)
  | x :: t =>
      match dict_get d "append" with
      | Some _ => (d, Err (TypeError "'Process' object is not callable"))
      | None =>
          match Processes_append d x with
          | (d', Ok _) => append_all d' t
          | (d', Err e) => (d', Err e)
          end
      end
  end.

(** [Processes.extend]: [isinstance(processes, Processes)] holds for both
    classes, and then [self.__dict__.update(processes.__dict__)]. *)
Definition Processes_extend (d : pydict field) (a : extend_arg) : pydict field * result unit :=
  match a with
  | ExtendCollection o => (dict_update d (obj_dict o), Ok tt)
  | ExtendIterable l => append_all d l
  end.

(** A call of one of the three mutators on an object. *)
Inductive mutator_call : Type :=
| Call_append (process : field)
| Call_extend (a : extend_arg)
| Call_setitem (ID : string) (process : field).

Definition mutator_name (c : mutator_call) : string :=
  match c with
  | Call_append _ => "append"
  | Call_extend _ => "extend"
  | Call_setitem _ _ => "__setitem__"
  end.

Definition call_mutator (o : pyobj) (c : mutator_call) : pyobj * result unit :=
  let upd d := mkObj (obj_class o) d in
  match resolve_mutator (obj_class o) (mutator_name c), c with
  | Some Impl_read_only, _ => (o, Err read_only_error)
  | Some Impl_Processes_append, Call_append x =>
      let (d, r) := Processes_append (obj_dict o) x in (upd d, r)
  | Some Impl_Processes_extend, Call_extend a =>
      let (d, r) := Processes_extend (obj_dict o) a in (upd d, r)
  | Some Impl_Processes_setitem, Call_setitem _ _ =>
      (o, Err (TypeError "can't set attribute; use <Processes>.append instead"))
  | _, _ => (o, Err (AttributeError (mutator_name c)))
  end.

(** A sequence of mutator calls; every call is attempted. *)
Fixpoint call_mutators (o : pyobj) (cs : list mutator_call) : pyobj * list (result unit) :=
  match cs with
  | [] => (o, [])
  | c :: t =>
      let (o', r) := call_mutator o c in
      let (o'', rs) := call_mutators o' t in (o'', r :: rs)
  end.

(** [Processes.__getitem__] with an iterable of IDs. *)
Definition Processes_getitem (o : pyobj) (key : list string) : result (list field) :=
  mapM (fun i => match dict_get (obj_dict o) i with
                 | Some f => Ok f
                 | None => Err (KeyError "undefined process")
                 end) key.

(** [Processes.mycompile]: class swap, then [CompiledProcesses._compile(self)]. *)
Definition Processes_mycompile (o : pyobj) : result pyobj :=
  let* d := _compile (obj_dict o) in Ok (mkObj CompiledProcesses_cls d).

(** Calling a looked-up attribute with no arguments. *)
Definition call0 (o : pyobj) (m : pyval) : result pyobj :=
  match m with
  | PField _ => Err (TypeError "'Process' object is not callable")
  | PList _ => Err (TypeError "'list' object is not callable")
  | PMethod _ name =>
      if String.eqb name "mycompile" then Processes_mycompile o
      else if String.eqb name "compile" then Ok o
      else Err (TypeError (name ++ "() is not a compile method"))
  end.

Section ProcessConstructor.
(** The body of [Process.__init__] after argument binding: the equation
    parser [get_stoichiometric_coeff] of the _parse module, which is not
    among the sources; it only runs once the required arguments are bound. *)
Variable Process_init : list pyval -> result Process.

(** [Process(...)]: [__init__(self, ID, reaction, ref_component, ...)] has
    three required positional parameters. *)
Definition Process_call (args : list pyval) : result Process :=
  if Nat.ltb (length args) 3
  then Err (TypeError "__init__() missing required positional arguments: 'reaction' and 'ref_component'")
  else Process_init args.

(** [Processes.subgroup]: [return Process([getattr(self, i) for i in IDs])].
    The list is the one positional argument of the call. *)
Definition Processes_subgroup (o : pyobj) (IDs : list string) : result Process :=
  let* members := mapM (getattr_obj o) IDs in
  Process_call [PList members].
End ProcessConstructor.

(** [CompiledProcesses.subgroup]:
    [processes = self[IDs]; new = Processes(processes); new.compile(); return new] *)
Definition CompiledProcesses_subgroup (o : pyobj) (IDs : list string) : result pyobj :=
  let* processes := Processes_getitem o IDs in
  let* d := Processes_new processes in
  let new := mkObj Processes_cls d in
  let* m := getattr_obj new "compile" in
  let* _ := call0 new m in
  Ok new.

(** [CompiledProcesses.copy]: [copy = Processes(self); copy.mycompile()];
    [Processes.__new__] iterates [self], i.e. [self.__dict__.values()]. *)
Definition CompiledProcesses_copy (o : pyobj) : result pyobj :=
  let* d := Processes_new (values (obj_dict o)) in
  Processes_mycompile (mkObj Processes_cls d).

(** [CompiledProcesses.index]. *)
Definition CompiledProcesses_index (o : pyobj) (ID : string) : result nat :=
  match dict_get (obj_dict o) "_index" with
  | Some (FIndex ix) =>
      match dict_get ix ID with
      | Some k => Ok k
      | None => Err (UndefinedProcess ID)
      end
  | _ => Err (AttributeError "_index")
  end.

(** [CompiledProcesses.indices]: the KeyError of the comprehension is
    re-raised as [UndefinedProcess(key_error.args[0])]. *)
Definition CompiledProcesses_indices (o : pyobj) (IDs : list string) : result (list nat) :=
  match dict_get (obj_dict o) "_index" with
  | Some (FIndex ix) =>
      match mapM (fun i => match dict_get ix i with
                           | Some k => Ok k
                           | None => Err (KeyError i)
                           end) IDs with
      | Ok l => Ok l
      | Err (KeyError k) => Err (UndefinedProcess k)
      | Err e => Err e
      end
  | _ => Err (AttributeError "_index")
  end.

(** A collection compiled by [CompiledProcesses(processes)] (cache apart). *)
Definition CompiledProcesses_of (ps : list Process) : result pyobj :=
  let* d := _compile (processes_dict ps) in Ok (mkObj CompiledProcesses_cls d).

(* ------------------------------------------------------------------ *)
(** * Process.check_conservation *)

(** Attribute names of a [Process] instance after [__init__], and those
    of its class body and of the [chemicals_user] decorator. *)
Definition Process_instance_attrs : list string :=
  ["_ID"; "_stoichiometry"; "_components"; "_ref_component"; "_conserved_for";
   "_parameters"; "_rate_equation"].

Definition Process_class_attrs : list string :=
  ["__init__"; "get_conversion_factors"; "check_conservation"; "reverse"; "ID";
   "ref_component"; "conserved_for"; "parameters"; "append_parameters";
   "set_parameters"; "stoichiometry"; "rate_equation"; "_parse_rate_eq";
   "_normalize_stoichiometry"; "_normalize_rate_eq"; "_load_chemicals"; "chemicals"].

(** Reading a tuple-of-names attribute of a process ([self.<name>]). *)
Definition Process_getattr_names (p : Process) (name : string) : result (list string) :=
  if String.eqb name "_conserved_for" then Ok (proc_conserved_for p)
  else if existsb (String.eqb name) (Process_instance_attrs ++ Process_class_attrs)
  then Err (TypeError (name ++ " is not a tuple of names"))
  else Err (AttributeError name).

Section Conservation.
(** [getattr(cmps, 'i_' + q)]: the conversion factor of quantity [q] for a
    component, read from the component registry. *)
Variable conversion_factor : string -> string -> Q.

(** [Process.get_conversion_factors]: one row per quantity of
    [self._conservation_for], stacked; [None] when that tuple is empty. *)
Definition get_conversion_factors (p : Process) : result (option (list (list Q))) :=
  let* quantities := Process_getattr_names p "_conservation_for" in
  match quantities with
  | [] => Ok None
  | _ => Ok (Some (map (fun q => map (conversion_factor q) (proc_components p)) quantities))
  end.

(** The RuntimeError listing each unconserved material with its residual. *)
Definition unconserved_error (l : list (string * Q)) : exn :=
  RuntimeError "The following materials are unconserved by the stoichiometric coefficients.".

Definition dot (row v : list Q) : Q :=
  Qsum (map (fun xy => (fst xy * snd xy)%Q) (combine row v)).

(** [Process.check_conservation(tol)]. [np.isclose(x, 0, atol=tol)] is
    [|x| <= tol]. *)
Definition check_conservation (p : Process) (tol : Q) : result unit :=
  if proc_is_ndarray p then
    let* ic := get_conversion_factors p in
    match ic with
    | None => Err (TypeError "unsupported operand type(s) for @: 'NoneType' and 'ndarray'")
    | Some ic =>
        let ic_dot_v := map (fun row => dot row (proc_stoichiometry p)) ic in
        let unconserved :=
          filter (fun mv => negb (Qle_bool (Qabs (snd mv)) tol))
                 (combine (proc_conserved_for p) ic_dot_v) in
        match unconserved with
        | [] => Ok tt
        | _ => Err (unconserved_error unconserved)
        end
    end
  else Err (RuntimeError "Can only check conservations with numerical stoichiometric coefficients.").
End Conservation.

(* ------------------------------------------------------------------ *)
(** * Process.ref_component setter *)

(** [Process._normalize_stoichiometry]: [factor = abs(stoich[index[new_ref]])]
    and every coefficient divided by it (in place for an array, by a list
    comprehension for a list). A zero factor raises for a list of Python
    numbers; an array would hold inf/nan, which [Q] does not represent. *)
Definition _normalize_stoichiometry (p : Process) (new_ref : string) : result Process :=
  match cmp_index (proc_components p) new_ref with
  | None => Err (KeyError new_ref)
  | Some k =>
      let factor := Qabs (nth k (proc_stoichiometry p) 0%Q) in
      if Qeq_bool factor 0 then Err (ZeroDivisionError "division by zero")
      else Ok {| proc_ID := proc_ID p;
                 proc_components := proc_components p;
                 proc_stoichiometry := map (fun v => v / factor)%Q (proc_stoichiometry p);
                 proc_is_ndarray := proc_is_ndarray p;
                 proc_rate_equation := proc_rate_equation p;
                 proc_parameters := proc_parameters p;
                 proc_ref_component := proc_ref_component p;
                 proc_conserved_for := proc_conserved_for p |}
  end.

(** [Process._normalize_rate_eq]: [factor = self._stoichiometry[index[new_ref]]]
    read from the current stoichiometry, then [self._rate_equation *= factor]. *)
Definition _normalize_rate_eq (p : Process) (new_ref : string) : result Process :=
  match cmp_index (proc_components p) new_ref with
  | None => Err (KeyError new_ref)
  | Some k =>
      let factor := nth k (proc_stoichiometry p) 0%Q in
      Ok {| proc_ID := proc_ID p;
            proc_components := proc_components p;
            proc_stoichiometry := proc_stoichiometry p;
            proc_is_ndarray := proc_is_ndarray p;
            proc_rate_equation := (proc_rate_equation p * factor)%Q;
            proc_parameters := proc_parameters p;
            proc_ref_component := proc_ref_component p;
            proc_conserved_for := proc_conserved_for p |}
  end.

(** [@ref_component.setter]: [if ref_cmp:] set the name, normalize the
    stoichiometry, then the rate equation. *)
Definition set_ref_component (p : Process) (ref_cmp : string) : result Process :=
  if String.eqb ref_cmp "" then Ok p
  else
    let p := {| proc_ID := proc_ID p;
                proc_components := proc_components p;
                proc_stoichiometry := proc_stoichiometry p;
                proc_is_ndarray := proc_is_ndarray p;
                proc_rate_equation := proc_rate_equation p;
                proc_parameters := proc_parameters p;
                proc_ref_component := ref_cmp;
                proc_conserved_for := proc_conserved_for p |} in
    let* p := _normalize_stoichiometry p ref_cmp in
    _normalize_rate_eq p ref_cmp.

(** The net rate of change of component [j] contributed by a process. *)
Definition net_rate (p : Process) (j : nat) : Q :=
  (nth j (proc_stoichiometry p) 0 * proc_rate_equation p)%Q.
(* ------------------------------------------------------------------ *)
(** * The cache of CompiledProcesses.__new__ *)

Module Cache.

(** Python objects are known by identity: a [Process] object by a number
    ([proc_of] gives its state), a compiled collection by the number it was
    allocated under. [cache] is [CompiledProcesses._cache], keyed by the
    tuple of member identities (tuples of objects without [__eq__] compare
    element identities). *)
Record heap : Type := mkHeap {
  cache : list (list nat * nat);
  objects : list (nat * pydict field);
  next_id : nat
}.

Definition empty_heap : heap := mkHeap [] [] 0.

Fixpoint cache_get (c : list (list nat * nat)) (k : list nat) : option nat :=
  match c with
  | [] => None
  | (k', o) :: t => if list_eq_dec Nat.eq_dec k k' then Some o else cache_get t k
  end.

Fixpoint cache_set (c : list (list nat * nat)) (k : list nat) (o : nat)
  : list (list nat * nat) :=
  match c with
  | [] => [(k, o)]
  | (k', o') :: t =>
      if list_eq_dec Nat.eq_dec k k' then (k', o) :: t else (k', o') :: cache_set t k o
  end.

Section New.
Variable proc_of : nat -> Process.

(** [CompiledProcesses.__new__(cls, processes)]: a cache hit returns the
    cached object; otherwise a fresh object is allocated, filled with the
    processes, compiled, and cached under the tuple. *)
Definition CompiledProcesses_new (h : heap) (processes : list nat) : result nat * heap :=
  match cache_get (cache h) processes with
  | Some o => (Ok o, h)
  | None =>
      match _compile (processes_dict (map proc_of processes)) with
      | Err e => (Err e, h)
      | Ok d =>
          let o := next_id h in
          (Ok o, mkHeap (cache_set (cache h) processes o) ((o, d) :: objects h) (S o))
      end
  end.

(** Heaps reached by constructor calls from the empty cache. *)
Inductive reachable : heap -> Prop :=
| reachable_empty : reachable empty_heap
| reachable_new h t r h' :
    reachable h -> CompiledProcesses_new h t = (r, h') -> reachable h'.

(** Any number of constructor calls. *)
Inductive steps : heap -> heap -> Prop :=
| steps_refl h : steps h h
| steps_new h t r h' h'' :
    CompiledProcesses_new h t = (r, h') -> steps h' h'' -> steps h h''.
End New.

End Cache.

(* ------------------------------------------------------------------ *)
(** * PM2.set_parameters *)

Module PM2.

Definition _shared_params : list string :=
  ["Y_CH_PHO"; "Y_LI_PHO"; "Y_X_ALG_PHO"; "Y_CH_NR_HET_ACE"; "Y_LI_NR_HET_ACE";
   "Y_X_ALG_HET_ACE"; "Y_CH_NR_HET_GLU"; "Y_LI_NR_HET_GLU"; "Y_X_ALG_HET_GLU"].

Definition _stoichio_params : list string :=
  (["Y_CH_ND_HET_ACE"; "Y_LI_ND_HET_ACE"; "Y_CH_ND_HET_GLU"; "Y_LI_ND_HET_GLU"]
   ++ _shared_params)%list.

(** The state [set_parameters] reads and writes: [self._parameters] (the
    stoichiometric parameter values), whether [self._stoichio_lambdified]
    holds a function, and [self.rate_function._params]. *)
Record PM2 : Type := mkPM2 {
  pm2_parameters : pydict Q;
  pm2_stoichio_lambdified : bool;
  pm2_rate_params : pydict Q
}.

Section SetParameters.
(** Modelled from the spec: [self.stoichiometry.loc[process, component]],
    the compiled stoichiometry evaluated with the current stoichiometric
    parameter values (the compiled-stoichiometry table of the Processes
    version PM2 is built on is not among the sources). *)
Variable stoichiometry_at : pydict Q -> string -> string -> Q.

Definition Th_Q_N_min (m : PM2) : Q :=
  (Qabs (stoichiometry_at (pm2_parameters m) "growth_pho" "X_N_ALG") * (1001 # 1000))%Q.

Definition Th_Q_P_min (m : PM2) : Q :=
  (Qabs (stoichiometry_at (pm2_parameters m) "growth_pho" "X_P_ALG") * (1001 # 1000))%Q.

(** Modelled from the spec: [self.rate_function.set_param] with the keyword arguments,
    which stores the given values in the rate function's parameter table. *)
Definition set_param (m : PM2) (parameters : pydict Q) : PM2 :=
  mkPM2 (pm2_parameters m) (pm2_stoichio_lambdified m)
        (dict_update (pm2_rate_params m) parameters).

Definition stoichio_only (parameters : pydict Q) : pydict Q :=
  filter (fun kv => existsb (String.eqb (fst kv)) _stoichio_params) parameters.

(** [PM2.set_parameters], the keyword arguments as a dict; [v < th] is [not (th <= v)]. *)
Definition set_parameters (m : PM2) (parameters : pydict Q) : PM2 * result unit :=
  let m := mkPM2 (dict_update (pm2_parameters m) (stoichio_only parameters))
                 false (pm2_rate_params m) in
  let check_N :=
    match dict_get parameters "Q_N_min" with
    | Some v => negb (Qle_bool (Th_Q_N_min m) v)
    | None => false
    end in
  let check_P :=
    match dict_get parameters "Q_P_min" with
    | Some v => negb (Qle_bool (Th_Q_P_min m) v)
    | None => false
    end in
  if check_N then
    (m, Err (ValueError "Value for Q_N_min must not be less than the theoretical minimum"))
  else if check_P then
    (m, Err (ValueError "Value for Q_P_min must not be less than the theoretical minimum"))
  else (set_param m parameters, Ok tt).
End SetParameters.

End PM2.

(* ================================================================== *)
(** * Further members of Process, Processes and CompiledProcesses *)

(** [Process.reverse]: [self._stoichiometry = -self._stoichiometry] for an
    array, [[-v for v in self._stoichiometry]] for a list, then
    [self._rate_equation = -self._rate_equation]. *)
Definition reverse (p : Process) : Process :=
  {| proc_ID := proc_ID p;
     proc_components := proc_components p;
     proc_stoichiometry := map Qopp (proc_stoichiometry p);
     proc_is_ndarray := proc_is_ndarray p;
     proc_rate_equation := Qopp (proc_rate_equation p);
     proc_parameters := proc_parameters p;
     proc_ref_component := proc_ref_component p;
     proc_conserved_for := proc_conserved_for p |}.

(** A dict of coefficients with every value negated. *)
Definition neg_values (d : pydict Q) : pydict Q := map (fun kv => (fst kv, Qopp (snd kv))) d.

(** Python's [sorted] on strings: the code-point order of
    [String_as_OT.compare]. Any stable sort gives Python's result, since
    two strings that compare equal are equal. *)
Module StrOrder <: TotalLeBool.
Definition t := string.
Definition leb (x y : string) : bool :=
  match String_as_OT.compare x y with Gt => false | _ => true end.
Infix "<=?" := leb (at level 70, no associativity).
Theorem leb_total : forall a1 a2, (a1 <=? a2) = true \/ (a2 <=? a1) = true.
Proof.
  intros a1 a2. unfold leb.
  destruct (String_as_OT.compare_spec a1 a2) as [E|E|E]; auto.
  right. destruct (String_as_OT.compare_spec a2 a1) as [E'|E'|E']; auto.
  exfalso. apply (StrictOrder_Irreflexive a1).
  apply (StrictOrder_Transitive _ a2); assumption.
Qed.
End StrOrder.

Module StrSort := Sort StrOrder.

(** [Process.parameters]: [tuple(sorted(self._parameters))]. *)
Definition Process_parameters (p : Process) : list string :=
  StrSort.sort (keys (proc_parameters p)).

(** [Process.append_parameters] with the names [new_pars]:
    [for p in new_pars: self._parameters[p] = symbols(p)]; the symbol
    [symbols(p)] is represented by its name. *)
Definition append_parameters (p : Process) (new_pars : list string) : Process :=
  {| proc_ID := proc_ID p;
     proc_components := proc_components p;
     proc_stoichiometry := proc_stoichiometry p;
     proc_is_ndarray := proc_is_ndarray p;
     proc_rate_equation := proc_rate_equation p;
     proc_parameters := fold_left (fun d n => dict_set d n n) new_pars (proc_parameters p);
     proc_ref_component := proc_ref_component p;
     proc_conserved_for := proc_conserved_for p |}.

(** [CompiledProcesses.parameters]: [tuple(sorted(self._parameters))]. *)
Definition CompiledProcesses_parameters (o : pyobj) : result (list string) :=
  match dict_get (obj_dict o) "_parameters" with
  | Some (FParameters params) => Ok (StrSort.sort (keys params))
  | _ => Err (AttributeError "_parameters")
  end.

(** The keys [_compile] writes into the instance __dict__, in order. *)
Definition compiled_fields : list string :=
  ["tuple"; "size"; "IDs"; "_index"; "_components"; "_parameters";
   "_stoichiometry"; "_rate_equations"; "_production_rates"].

(** [Processes.__len__]: [len(self.__dict__)]. *)
Definition Processes_len (o : pyobj) : nat := length (obj_dict o).

(** [Processes.__contains__] and [CompiledProcesses.__contains__] with a
    string: [process in self.__dict__]. *)
Definition Processes_contains_str (o : pyobj) (ID : string) : bool :=
  existsb (String.eqb ID) (keys (obj_dict o)).

(** [Processes.__iter__]: [yield from self.__dict__.values()]. *)
Definition Processes_iter (o : pyobj) : list field := values (obj_dict o).

(** [type(self).__name__]. *)
Definition class_name (c : pyclass) : string :=
  match c with
  | Processes_cls => "Processes"
  | CompiledProcesses_cls => "CompiledProcesses"
  end.

(** [sep.join(l)]. *)
Fixpoint join (sep : string) (l : list string) : string :=
  match l with
  | [] => ""
  | [x] => x
  | x :: t => x ++ sep ++ join sep t
  end.

(** [Processes.__repr__]: [f"{type(self).__name__}([{', '.join(self.__dict__)}])"]. *)
Definition Processes_repr (o : pyobj) : string :=
  class_name (obj_class o) ++ "([" ++ join ", " (keys (obj_dict o)) ++ "])".

(** [Processes.__getitem__] with a string key. *)
Definition Processes_getitem_str (o : pyobj) (key : string) : result field :=
  match dict_get (obj_dict o) key with
  | Some f => Ok f
  | None => Err (KeyError ("undefined process " ++ key))
  end.

(** [Processes.copy]: [copy = object.__new__(Processes)], then
    [for proc in self: setattr(copy, proc.ID, proc)], where the module
    rebinds [setattr = object.__setattr__]. *)
Definition Processes_copy (o : pyobj) : result pyobj :=
  let* d := Processes_fill [] (values (obj_dict o)) in
  Ok (mkObj Processes_cls d).

(* ------------------------------------------------------------------ *)
(** * Kinetic helpers of _pm2.py *)

(** Python's [max(a, b)] returns [a] unless [b > a]; [min(a, b)] returns
    [a] unless [b < a]. *)
Definition py_max (a b : Q) : Q := if Qle_bool b a then a else b.
Definition py_min (a b : Q) : Q := if Qle_bool a b then a else b.

(** [ratio]: [min(max(minimum, numerator / denominator), maximum)]. *)
Definition ratio (numerator denominator minimum maximum : Q) : Q :=
  py_min (py_max minimum (numerator / denominator)) maximum.

(** [irrad_response] (Eilers and Peeters). *)
Definition irrad_response (i_avg X_CHL X_carbon I_n I_opt : Q) : Q :=
  if negb (Qle_bool X_carbon 0) then
    let f_I := (i_avg / (i_avg + I_n * ((1 # 4) - (5 * X_CHL / X_carbon)) *
                 ((i_avg ^ 2 / I_opt ^ 2) - (2 * i_avg / I_opt) + 1)))%Q in
    py_min 1 (py_max 0 f_I)
  else 0%Q.

(* ================================================================== *)
(** * Concrete inputs and invariants *)

(** Every entry of the dict is a process stored under its own ID. *)
Definition well_keyed (d : pydict field) : Prop :=
  Forall (fun kv => exists p, snd kv = FProc p /\ fst kv = proc_ID p) d.

(** A conserving process (COD factor 1 for both components, coefficients
    -1 and +1): the residual is zero, yet the call raises. *)
Definition conserving_process : Process :=
  mkProcess "growth" ["S_A"; "X_ALG"] [(-1)%Q; 1%Q] true 1%Q [] "X_ALG" ["COD"].

(** The process of the counterexample: coefficient 2 at the new reference. *)
Definition ref_example : Process :=
  mkProcess "p" ["A"; "B"] [2%Q; (-4)%Q] true 1%Q [] "B" [].

(** Two processes sharing component "B", used as concrete inputs. *)
Definition proc_p1 : Process :=
  mkProcess "p1" ["A"; "B"] [(-1)%Q; 1%Q] true 1%Q [] "B" ["COD"].
Definition proc_p2 : Process :=
  mkProcess "p2" ["B"; "C"] [(-1)%Q; 1%Q] true 1%Q [] "C" ["COD"].

(** A process with two kinetic parameters. *)
Definition proc_growth : Process :=
  mkProcess "growth" ["A"] [1%Q] true 1%Q [("mu", "mu"); ("K", "K")] "A" [].

(** Cached objects were allocated before [next_id], under one key each. *)
Definition cache_inv (h : Cache.heap) : Prop :=
  (forall k o, Cache.cache_get (Cache.cache h) k = Some o -> o < Cache.next_id h) /\
  (forall k k' o, Cache.cache_get (Cache.cache h) k = Some o -> Cache.cache_get (Cache.cache h) k' = Some o -> k = k').

(** The keyword arguments of the example call
    [set_parameters(Y_CH_PHO=0.5, Q_N_min=0)]. *)
Definition pm2_call : pydict Q := [("Y_CH_PHO", 1 # 2); ("Q_N_min", 0)]%Q.

(** A PM2 state with [Y_CH_PHO = 0.754], a lambdified stoichiometry and
    [Q_N_min = 0.2] in the rate function. *)
Definition pm2_state : PM2.PM2 :=
  PM2.mkPM2 [("Y_CH_PHO", 754 # 1000)]%Q true [("Q_N_min", 1 # 5)]%Q.

(** A compiled stoichiometry whose [growth_pho] coefficient on [X_N_ALG]
    (and on every other component) is [-0.1]. *)
Definition pm2_stoich (_ : pydict Q) (_ _ : string) : Q := (-1 # 10)%Q.

(* ================================================================== *)
(** * Lemmas on the dict and list model *)

Lemma dict_get_set {V} (d : pydict V) k v k' :
  dict_get (dict_set d k v) k' = if String.eqb k' k then Some v else dict_get d k'.
Proof.
  induction d as [|[k1 v1] t IH]; simpl.
  - reflexivity.
  - destruct (String.eqb k k1) eqn:E; simpl.
    + apply String.eqb_eq in E; subst k1. destruct (String.eqb k' k); reflexivity.
    + rewrite IH. destruct (String.eqb k' k1) eqn:E1, (String.eqb k' k) eqn:E2;
        try reflexivity.
      apply String.eqb_eq in E1, E2; subst. rewrite String.eqb_refl in E.
      discriminate.
Qed.

Lemma keys_dict_set_fresh {V} (d : pydict V) k v :
  ~ In k (keys d) -> dict_set d k v = (d ++ [(k, v)])%list.
Proof.
  induction d as [|[k1 v1] t IH]; simpl; intros H.
  - reflexivity.
  - destruct (String.eqb k k1) eqn:E.
    + apply String.eqb_eq in E. subst. exfalso. apply H. left. reflexivity.
    + f_equal. apply IH. intros Hin. apply H. right. exact Hin.
Qed.

Lemma keys_dict_set {V} (d : pydict V) k v :
  keys (dict_set d k v) = if existsb (String.eqb k) (keys d) then keys d
                          else (keys d ++ [k])%list.
Proof.
  induction d as [|[k1 v1] t IH]; simpl.
  - reflexivity.
  - destruct (String.eqb k k1) eqn:E; simpl.
    + apply String.eqb_eq in E. subst. reflexivity.
    + rewrite IH. destruct (existsb (String.eqb k) (keys t)); reflexivity.
Qed.

Lemma In_keys_dict_set {V} (d : pydict V) k v x :
  In x (keys (dict_set d k v)) -> In x (keys d) \/ x = k.
Proof.
  rewrite keys_dict_set. destruct (existsb (String.eqb k) (keys d)); auto.
  intros H. apply in_app_or in H as [H|[H|[]]]; auto.
Qed.

Lemma In_keys_dict_update {V} (l d : pydict V) x :
  In x (keys (dict_update d l)) -> In x (keys d) \/ In x (keys l).
Proof.
  unfold dict_update. revert d.
  induction l as [|[k v] t IH]; simpl; intros d H; auto.
  apply IH in H as [H|H]; auto.
  apply In_keys_dict_set in H as [H|H]; auto.
Qed.

Lemma dict_update_fresh {V} (l d : pydict V) :
  NoDup (keys d ++ keys l) -> dict_update d l = (d ++ l)%list.
Proof.
  unfold dict_update. revert d.
  induction l as [|[k v] t IH]; simpl; intros d H.
  - rewrite app_nil_r. reflexivity.
  - rewrite keys_dict_set_fresh.
    + rewrite IH.
      * rewrite <- app_assoc. reflexivity.
      * unfold keys in *. rewrite map_app. simpl. rewrite <- app_assoc. exact H.
    + intros Hin. apply NoDup_remove_2 in H. apply H. apply in_or_app. left. exact Hin.
Qed.

Lemma keys_combine {A B} (l1 : list A) (l2 : list B) :
  length l1 = length l2 -> map fst (combine l1 l2) = l1.
Proof.
  revert l2. induction l1 as [|a t IH]; intros [|b l2] H; simpl in *;
    try discriminate; try reflexivity.
  f_equal. apply IH. lia.
Qed.

Lemma values_combine {A B} (l1 : list A) (l2 : list B) :
  length l1 = length l2 -> map snd (combine l1 l2) = l2.
Proof.
  revert l2. induction l1 as [|a t IH]; intros [|b l2] H; simpl in *;
    try discriminate; try reflexivity.
  f_equal. apply IH. lia.
Qed.

Lemma length_set_nth {A} (l : list A) k v : length (set_nth l k v) = length l.
Proof.
  revert k. induction l as [|x t IH]; intros [|k]; simpl; auto.
Qed.

Lemma nth_set_nth_ne {A} (l : list A) k v j d :
  k <> j -> nth j (set_nth l k v) d = nth j l d.
Proof.
  revert k j. induction l as [|x t IH]; intros [|k] [|j] H; simpl; auto.
  - contradiction.
Qed.

Lemma cmp_index_In cmps c : In c cmps -> exists k, cmp_index cmps c = Some k /\ k < length cmps.
Proof.
  induction cmps as [|c' t IH]; simpl; intros H; [contradiction|].
  destruct (String.eqb c c') eqn:E.
  - exists O. split; [reflexivity | lia].
  - destruct H as [H|H].
    + subst. rewrite String.eqb_refl in E. discriminate.
    + destruct (IH H) as [k [Hk Hlt]]. rewrite Hk. exists (S k). split; [reflexivity | lia].
Qed.

Lemma cmp_index_Some cmps c k : cmp_index cmps c = Some k -> nth k cmps "" = c.
Proof.
  revert k. induction cmps as [|c' t IH]; simpl; intros k H; [discriminate|].
  destruct (String.eqb c c') eqn:E.
  - inversion H; subst. apply String.eqb_eq in E. symmetry. exact E.
  - destruct (cmp_index t c) as [k'|] eqn:Ek; inversion H; subst. apply IH. reflexivity.
Qed.

Lemma Components_merge_acc l acc c :
  In c acc \/ In c l ->
  In c (fold_left (fun acc c => if existsb (String.eqb c) acc then acc else (acc ++ [c])%list)
                  l acc).
Proof.
  revert acc. induction l as [|x t IH]; simpl; intros acc H.
  - destruct H as [H|[]]. exact H.
  - apply IH. destruct H as [H|[H|H]]; auto.
    + left. destruct (existsb (String.eqb x) acc); auto.
      apply in_or_app. left. exact H.
    + subst x. left. destruct (existsb (String.eqb c) acc) eqn:E.
      * apply existsb_exists in E as [y [Hy Heq]]. apply String.eqb_eq in Heq. subst. exact Hy.
      * apply in_or_app. right. left. reflexivity.
Qed.

Lemma Components_merge_In l c : In c l -> In c (Components_merge l).
Proof. intros H. apply Components_merge_acc. right. exact H. Qed.

Lemma Components_merge_NoDup_acc l acc :
  NoDup acc ->
  NoDup (fold_left (fun acc c => if existsb (String.eqb c) acc then acc else (acc ++ [c])%list)
                   l acc).
Proof.
  revert acc. induction l as [|x t IH]; simpl; intros acc H; auto.
  apply IH. destruct (existsb (String.eqb x) acc) eqn:E; auto.
  apply NoDup_app; auto.
  - constructor; [intros []|constructor].
  - intros y Hy [Hx|[]]. subst y.
    assert (existsb (String.eqb x) acc = true) as E'.
    { apply existsb_exists. exists x. split; auto. apply String.eqb_refl. }
    congruence.
Qed.

Lemma Components_merge_NoDup l : NoDup (Components_merge l).
Proof. apply Components_merge_NoDup_acc. constructor. Qed.

(** ** Shape of the dict of a fresh collection *)

Lemma well_keyed_set d p :
  well_keyed d -> well_keyed (dict_set d (proc_ID p) (FProc p)).
Proof.
  unfold well_keyed. induction d as [|[k1 v1] t IH]; simpl; intros H.
  - constructor; [exists p; auto | constructor].
  - inversion H as [|? ? Hhd Htl]; subst.
    destruct (String.eqb (proc_ID p) k1) eqn:E.
    + apply String.eqb_eq in E. constructor; auto. exists p. simpl. auto.
    + constructor; auto.
Qed.

Lemma NoDup_keys_set {V} (d : pydict V) k v :
  NoDup (keys d) -> NoDup (keys (dict_set d k v)).
Proof.
  intros H. rewrite keys_dict_set. destruct (existsb (String.eqb k) (keys d)) eqn:E; auto.
  apply NoDup_app; auto.
  - constructor; [intros []|constructor].
  - intros y Hy [Hx|[]]. subst y.
    assert (existsb (String.eqb k) (keys d) = true) as E'.
    { apply existsb_exists. exists k. split; auto. apply String.eqb_refl. }
    congruence.
Qed.

Lemma processes_dict_acc ps d :
  well_keyed d -> NoDup (keys d) ->
  well_keyed (fold_left (fun d p => dict_set d (proc_ID p) (FProc p)) ps d) /\
  NoDup (keys (fold_left (fun d p => dict_set d (proc_ID p) (FProc p)) ps d)).
Proof.
  revert d. induction ps as [|p t IH]; simpl; intros d H1 H2; auto.
  apply IH; [apply well_keyed_set | apply NoDup_keys_set]; auto.
Qed.

Lemma processes_dict_wk ps :
  well_keyed (processes_dict ps) /\ NoDup (keys (processes_dict ps)).
Proof. apply processes_dict_acc; constructor. Qed.

Lemma well_keyed_procs d :
  well_keyed d -> exists procs, values d = map FProc procs /\ keys d = map proc_ID procs.
Proof.
  unfold well_keyed. induction d as [|[k v] t IH]; simpl; intros H.
  - exists []. auto.
  - inversion H as [|? ? [p [Hv Hk]] Htl]; subst. simpl in *.
    destruct (IH Htl) as [procs [H1 H2]]. exists (p :: procs). simpl.
    unfold values, keys in *. simpl. rewrite H1, H2, Hv, Hk. auto.
Qed.

(** ** The steps of [_compile] on processes *)

Lemma mapM_getID procs : mapM getID (map FProc procs) = Ok (map proc_ID procs).
Proof. induction procs as [|p t IH]; simpl; [reflexivity | rewrite IH; reflexivity]. Qed.

Lemma mapM_as_process procs : mapM as_process (map FProc procs) = Ok procs.
Proof. induction procs as [|p t IH]; simpl; [reflexivity | rewrite IH; reflexivity]. Qed.

Lemma fill_row_ok cmps st entries :
  (forall c, In c (keys entries) -> In c cmps) ->
  exists row, fill_row cmps st entries = Ok row /\ length row = length st.
Proof.
  revert st. induction entries as [|[c v] t IH]; simpl; intros st H.
  - exists st. auto.
  - destruct (cmp_index_In cmps c (H c (or_introl eq_refl))) as [k [Hk _]].
    rewrite Hk. destruct (IH (set_nth st k v)) as [row [H1 H2]].
    + intros c' Hc'. apply H. right. exact Hc'.
    + exists row. rewrite length_set_nth in H2. auto.
Qed.

Lemma stoichiometry_keys p c :
  In c (keys (stoichiometry p)) -> In c (proc_components p).
Proof.
  unfold stoichiometry, keys. intros H.
  apply in_map_iff in H as [[k v] [Hk Hin]]. simpl in Hk. subst k.
  apply filter_In in Hin as [Hin _].
  assert (In c (keys (dict_of_pairs (combine (proc_components p) (proc_stoichiometry p)))))
    as H' by (apply in_map_iff; exists (c, v); auto).
  apply In_keys_dict_update in H' as [[]|H'].
  apply in_map_iff in H' as [[k w] [Hk Hin']]. simpl in Hk. subst k.
  apply in_combine_l in Hin'. exact Hin'.
Qed.

Lemma mapM_stoich_row cmps procs :
  (forall p c, In p procs -> In c (proc_components p) -> In c cmps) ->
  exists M, mapM (stoich_row cmps) procs = Ok M /\ length M = length procs /\
            Forall (fun row => length row = length cmps) M.
Proof.
  induction procs as [|p t IH]; simpl; intros H.
  - exists []. auto.
  - destruct (fill_row_ok cmps (repeat 0%Q (length cmps)) (stoichiometry p)) as [row [Hr Hl]].
    { intros c Hc. apply (H p); auto. apply stoichiometry_keys. exact Hc. }
    destruct IH as [M [HM [HlM HF]]].
    { intros p' c Hp Hc. apply (H p'); auto. }
    unfold stoich_row at 1. rewrite Hr. simpl. rewrite HM. simpl.
    exists (row :: M). rewrite repeat_length in Hl. simpl. split; [reflexivity | split; auto].
Qed.

Lemma length_matT_mul_vec n M r : length (matT_mul_vec n M r) = n.
Proof. unfold matT_mul_vec. rewrite length_map, length_seq. reflexivity. Qed.

Lemma nth_map_lt {A B} (f : A -> B) l j d da :
  j < length l -> nth j (map f l) d = f (nth j l da).
Proof.
  intros H. rewrite nth_indep with (d' := f da) by (rewrite length_map; exact H).
  apply map_nth.
Qed.

Lemma nth_matT_mul_vec n M r j :
  j < n ->
  nth j (matT_mul_vec n M r) 0%Q =
  Qsum (map (fun rr => (nth j (fst rr) 0 * snd rr)%Q) (combine M r)).
Proof.
  intros Hj. unfold matT_mul_vec.
  rewrite (nth_map_lt _ _ _ _ O) by (rewrite length_seq; exact Hj).
  rewrite seq_nth by exact Hj. reflexivity.
Qed.

Lemma compile_shape (ps : list Process) :
  exists d', _compile (processes_dict ps) = Ok d' /\
    get_IDs d' = keys (processes_dict ps) /\
    get_size d' = Some (length (processes_dict ps)) /\
    length (get_stoichiometry d') = length (processes_dict ps) /\
    Forall (fun row => length row = length (get_components d')) (get_stoichiometry d') /\
    length (get_rate_equations d') = length (processes_dict ps) /\
    keys (production_rates d') = get_components d' /\
    (forall j, j < length (get_components d') ->
       nth j (values (production_rates d')) 0%Q =
       Qsum (map (fun rr => (nth j (fst rr) 0 * snd rr)%Q)
                 (combine (get_stoichiometry d') (get_rate_equations d')))).
Proof.
  destruct (processes_dict_wk ps) as [Hwk Hnd].
  set (d := processes_dict ps) in *.
  destruct (well_keyed_procs d Hwk) as [procs [Hv Hk]].
  unfold _compile. rewrite Hv, mapM_getID. cbn [rbind]. rewrite mapM_as_process. cbn [rbind].
  set (cmps := Components_merge (flat_map proc_components procs)).
  destruct (mapM_stoich_row cmps procs) as [M [HM [HlM HF]]].
  { intros p c Hp Hc. apply Components_merge_In. apply in_flat_map. eauto. }
  rewrite HM. cbn [rbind].
  eexists; split; [reflexivity|].
  unfold get_IDs, get_size, get_components, get_stoichiometry, get_rate_equations,
    production_rates.
  rewrite !dict_get_set. simpl String.eqb. cbv iota.
  unfold get_components. rewrite !dict_get_set. simpl String.eqb. cbv iota.
  assert (Hlen : length cmps = length (matT_mul_vec (length cmps) M (map proc_rate_equation procs)))
    by (rewrite length_matT_mul_vec; reflexivity).
  assert (Hfresh : dict_of_pairs (combine cmps (matT_mul_vec (length cmps) M
                                    (map proc_rate_equation procs)))
                  = combine cmps (matT_mul_vec (length cmps) M (map proc_rate_equation procs))).
  { unfold dict_of_pairs. rewrite dict_update_fresh; [reflexivity|].
    simpl. unfold keys. rewrite keys_combine by exact Hlen. apply Components_merge_NoDup. }
  rewrite Hfresh. unfold keys, values.
  rewrite keys_combine, values_combine by exact Hlen.
  assert (length d = length procs) as Hd.
  { replace (length d) with (length (values d)) by apply length_map.
    rewrite Hv. apply length_map. }
  rewrite Hd, !length_map, HlM. fold (keys d). rewrite Hk.
  repeat split; auto.
  intros j Hj. apply nth_matT_mul_vec. exact Hj.
Qed.

Lemma Qeq_bool_true_zero (q : Q) : Qeq_bool q 0 = true -> (0 == q)%Q.
Proof. intros H. apply Qeq_bool_iff in H. symmetry. exact H. Qed.

(** The scenario of the spec: [p1] parsed against a registry [{A,B}], [p2]
    against [{B,C}], with arbitrary coefficients, rates and parameters. *)
Lemma compile_two_processes (a1 b1 b2 c2 r1 r2 : Q) nd1 nd2 pa1 pa2 ref1 ref2 cf1 cf2 :
  let p1 := mkProcess "p1" ["A"; "B"] [a1; b1] nd1 r1 pa1 ref1 cf1 in
  let p2 := mkProcess "p2" ["B"; "C"] [b2; c2] nd2 r2 pa2 ref2 cf2 in
  exists d', _compile (processes_dict [p1; p2]) = Ok d' /\
    get_components d' = ["A"; "B"; "C"] /\ get_IDs d' = ["p1"; "p2"] /\
    exists row1 row2, get_stoichiometry d' = [row1; row2] /\
      length row1 = 3 /\ length row2 = 3 /\
      nth 2 row1 0%Q = 0%Q /\ nth 0 row2 0%Q = 0%Q /\
      (nth 0 row1 0 == a1)%Q /\ (nth 1 row1 0 == b1)%Q /\
      (nth 1 row2 0 == b2)%Q /\ (nth 2 row2 0 == c2)%Q.
Proof.
  intros p1 p2. unfold p1, p2, _compile, processes_dict, stoich_row, stoichiometry. simpl.
  destruct (Qeq_bool a1 0) eqn:Ea1, (Qeq_bool b1 0) eqn:Eb1,
           (Qeq_bool b2 0) eqn:Eb2, (Qeq_bool c2 0) eqn:Ec2; simpl;
    (eexists; split; [reflexivity|]); simpl;
    (split; [reflexivity|]); (split; [reflexivity|]);
    (eexists; eexists; split; [reflexivity|]); simpl;
    repeat split; try reflexivity; apply Qeq_bool_true_zero; assumption.
Qed.

(** C1. Compiling [p1] (components {A,B}) with [p2] (components {B,C})
    yields the merged registry A,B,C in first-seen order and a 2x3
    stoichiometry matrix with zeros at (p1,C) and (p2,A); in general, for a
    collection of P processes whose merged registry has C components, the
    size and IDs have P entries, the matrix has P rows of C columns, and
    production_rates has one entry per component equal to
    (stoichiometry-transpose times rate vector) at that component. *)
Theorem compile_registry_and_shape :
  (forall (a1 b1 b2 c2 r1 r2 : Q) nd1 nd2 pa1 pa2 ref1 ref2 cf1 cf2,
    let p1 := mkProcess "p1" ["A"; "B"] [a1; b1] nd1 r1 pa1 ref1 cf1 in
    let p2 := mkProcess "p2" ["B"; "C"] [b2; c2] nd2 r2 pa2 ref2 cf2 in
    exists d', _compile (processes_dict [p1; p2]) = Ok d' /\
      get_components d' = ["A"; "B"; "C"] /\ get_IDs d' = ["p1"; "p2"] /\
      exists row1 row2, get_stoichiometry d' = [row1; row2] /\
        length row1 = 3 /\ length row2 = 3 /\
        nth 2 row1 0%Q = 0%Q /\ nth 0 row2 0%Q = 0%Q /\
        (nth 0 row1 0 == a1)%Q /\ (nth 1 row1 0 == b1)%Q /\
        (nth 1 row2 0 == b2)%Q /\ (nth 2 row2 0 == c2)%Q) /\
  (forall ps : list Process,
    exists d', _compile (processes_dict ps) = Ok d' /\
      get_IDs d' = keys (processes_dict ps) /\
      get_size d' = Some (length (processes_dict ps)) /\
      length (get_stoichiometry d') = length (processes_dict ps) /\
      Forall (fun row => length row = length (get_components d')) (get_stoichiometry d') /\
      length (get_rate_equations d') = length (processes_dict ps) /\
      keys (production_rates d') = get_components d' /\
      (forall j, j < length (get_components d') ->
         nth j (values (production_rates d')) 0%Q =
         Qsum (map (fun rr => (nth j (fst rr) 0 * snd rr)%Q)
                   (combine (get_stoichiometry d') (get_rate_equations d'))))).
Proof.
  split.
  - intros. apply compile_two_processes.
  - apply compile_shape.
Qed.

(* ================================================================== *)
(** * Process.check_conservation *)

(** C3. [check_conservation] never returns normally: with a numeric
    (array) stoichiometry it fails reading [self._conservation_for] (the
    instance has [_conserved_for]) in [get_conversion_factors], before any
    residual is computed; otherwise it raises the "numerical coefficients"
    RuntimeError. *)
Theorem check_conservation_outcome (conversion_factor : string -> string -> Q)
    (p : Process) (tol : Q) :
  check_conservation conversion_factor p tol =
  if proc_is_ndarray p then Err (AttributeError "_conservation_for")
  else Err (RuntimeError "Can only check conservations with numerical stoichiometric coefficients.").
Proof.
  unfold check_conservation, get_conversion_factors, Process_getattr_names.
  destruct (proc_is_ndarray p); reflexivity.
Qed.

Lemma conserving_process_residual :
  map (fun row => dot row (proc_stoichiometry conserving_process))
      [map (fun _ => 1%Q) (proc_components conserving_process)] = [0%Q].
Proof. reflexivity. Qed.

Lemma check_conservation_conserving_raises :
  check_conservation (fun _ _ => 1%Q) conserving_process (1 # 100000000) =
  Err (AttributeError "_conservation_for").
Proof. reflexivity. Qed.

(* ================================================================== *)
(** * The read-only guard *)

Lemma call_mutator_compiled o c :
  obj_class o = CompiledProcesses_cls -> call_mutator o c = (o, Err read_only_error).
Proof.
  intros H. unfold call_mutator. rewrite H. destruct c; reflexivity.
Qed.

(** C4. On a [CompiledProcesses] object every [append], [extend] and item
    assignment, in any sequence of calls, raises the read-only error and
    leaves the object (class and whole __dict__: members, matrix, index,
    parameter table) unchanged. *)
Theorem compiled_mutators_read_only (o : pyobj) (cs : list mutator_call) :
  obj_class o = CompiledProcesses_cls ->
  call_mutators o cs = (o, repeat (Err read_only_error) (length cs)).
Proof.
  intros H. induction cs as [|c t IH]; simpl; [reflexivity|].
  rewrite (call_mutator_compiled o c H). rewrite IH. reflexivity.
Qed.

Lemma compiled_mutators_read_only_witness :
  let o := mkObj CompiledProcesses_cls (processes_dict [conserving_process]) in
  obj_class o = CompiledProcesses_cls /\
  call_mutators o [Call_append (FProc conserving_process);
                   Call_extend (ExtendIterable []);
                   Call_setitem "growth" (FProc conserving_process)]
  = (o, repeat (Err read_only_error) 3).
Proof.
  intros o. split; [reflexivity|].
  apply (compiled_mutators_read_only o). reflexivity.
Defined.

(* ================================================================== *)
(** * index and indices *)

Lemma compile_index (ps : list Process) :
  exists d', _compile (processes_dict ps) = Ok d' /\
    dict_get d' "_index" =
      Some (FIndex (combine (keys (processes_dict ps))
                            (seq 0 (length (keys (processes_dict ps)))))) /\
    dict_get d' "size" = Some (FSize (length (processes_dict ps))).
Proof.
  destruct (processes_dict_wk ps) as [Hwk Hnd].
  set (d := processes_dict ps) in *.
  destruct (well_keyed_procs d Hwk) as [procs [Hv Hk]].
  unfold _compile. rewrite Hv, mapM_getID. cbn [rbind]. rewrite mapM_as_process. cbn [rbind].
  set (cmps := Components_merge (flat_map proc_components procs)).
  destruct (mapM_stoich_row cmps procs) as [M [HM [HlM HF]]].
  { intros p c Hp Hc. apply Components_merge_In. apply in_flat_map. eauto. }
  rewrite HM. cbn [rbind].
  eexists; split; [reflexivity|].
  rewrite !dict_get_set. simpl String.eqb. cbv iota.
  rewrite <- Hk. split.
  - unfold dict_of_pairs. rewrite dict_update_fresh; [reflexivity|].
    simpl. unfold keys at 1. rewrite keys_combine by (rewrite length_seq; reflexivity).
    exact Hnd.
  - unfold keys. rewrite length_map. reflexivity.
Qed.

Lemma dict_get_combine_seq_Some (l : list string) a ID k :
  dict_get (combine l (seq a (length l))) ID = Some k ->
  a <= k < a + length l /\ nth (k - a) l "" = ID.
Proof.
  revert a. induction l as [|x t IH]; simpl; intros a H; [discriminate|].
  destruct (String.eqb ID x) eqn:E.
  - inversion H; subst. apply String.eqb_eq in E. subst.
    rewrite Nat.sub_diag. split; [lia | reflexivity].
  - apply IH in H as [H1 H2]. split; [lia|].
    replace (k - a) with (S (k - S a)) by lia. exact H2.
Qed.

Lemma dict_get_combine_seq_None (l : list string) a ID :
  dict_get (combine l (seq a (length l))) ID = None -> ~ In ID l.
Proof.
  revert a. induction l as [|x t IH]; simpl; intros a H; [auto|].
  destruct (String.eqb ID x) eqn:E; [discriminate|].
  intros [Hx|Hin].
  - subst. rewrite String.eqb_refl in E. discriminate.
  - exact (IH (S a) H Hin).
Qed.

Lemma dict_get_combine_seq_notin (l : list string) a ID :
  ~ In ID l -> dict_get (combine l (seq a (length l))) ID = None.
Proof.
  intros H. destruct (dict_get (combine l (seq a (length l))) ID) as [k|] eqn:E; auto.
  apply dict_get_combine_seq_Some in E as [H1 H2]. exfalso. apply H.
  rewrite <- H2. apply nth_In. lia.
Qed.

Lemma dict_get_combine_seq_nth (l : list string) k :
  NoDup l -> k < length l -> dict_get (combine l (seq 0 (length l))) (nth k l "") = Some k.
Proof.
  intros Hnd Hk.
  destruct (dict_get (combine l (seq 0 (length l))) (nth k l "")) as [k'|] eqn:E.
  - apply dict_get_combine_seq_Some in E as [H1 H2]. rewrite Nat.sub_0_r in H2.
    f_equal. apply (proj1 (NoDup_nth l "") Hnd); lia || auto.
  - apply dict_get_combine_seq_None in E. exfalso. apply E. apply nth_In. exact Hk.
Qed.

Lemma mapM_Err {A B} (f : A -> result B) l e :
  mapM f l = Err e -> exists x, In x l /\ f x = Err e.
Proof.
  induction l as [|x t IH]; simpl; [discriminate|].
  destruct (f x) as [y|e'] eqn:Ef; simpl.
  - destruct (mapM f t) as [ys|e''] eqn:Et; simpl; [discriminate|].
    intros H. inversion H; subst. destruct (IH eq_refl) as [z [Hz Hfz]]. eauto.
  - intros H. inversion H; subst. eauto.
Qed.

Lemma mapM_Ok {A B} (f : A -> result B) l ys :
  mapM f l = Ok ys -> Forall2 (fun x y => f x = Ok y) l ys.
Proof.
  revert ys. induction l as [|x t IH]; simpl; intros ys H.
  - inversion H. constructor.
  - destruct (f x) as [y|e'] eqn:Ef; simpl in H; [|discriminate].
    destruct (mapM f t) as [ys'|e''] eqn:Et; simpl in H; [|discriminate].
    inversion H; subst. constructor; auto.
Qed.

Lemma Forall2_In_l {A B} (R : A -> B -> Prop) l1 l2 x :
  Forall2 R l1 l2 -> In x l1 -> exists y, In y l2 /\ R x y.
Proof.
  intros H. induction H as [|a b t1 t2 Hab Ht IH]; simpl; [intros []|].
  intros [Hx|Hx].
  - subst. exists b. auto.
  - destruct (IH Hx) as [y [Hy HR]]. exists y. auto.
Qed.

(** C5. On a compiled collection, [index] and [indices] raise
    [UndefinedProcess] carrying an offending ID (the missing ID itself for
    [index], a requested ID that is not a member for [indices]), never a
    KeyError; for member IDs they return the positions in the compiled
    order. *)
Theorem index_undefined_process (ps : list Process) :
  let K := keys (processes_dict ps) in
  exists o, CompiledProcesses_of ps = Ok o /\
   (forall ID, ~ In ID K -> CompiledProcesses_index o ID = Err (UndefinedProcess ID)) /\
   (forall k, k < length K -> CompiledProcesses_index o (nth k K "") = Ok k) /\
   (forall IDs, (exists ID, In ID IDs /\ ~ In ID K) ->
      exists ID, In ID IDs /\ ~ In ID K /\
                 CompiledProcesses_indices o IDs = Err (UndefinedProcess ID)) /\
   (forall IDs, Forall (fun ID => In ID K) IDs ->
      exists l, CompiledProcesses_indices o IDs = Ok l /\
                Forall2 (fun ID k => k < length K /\ nth k K "" = ID) IDs l).
Proof.
  intros K.
  destruct (compile_index ps) as [d' [Hc [Hix _]]].
  destruct (processes_dict_wk ps) as [_ Hnd].
  fold K in Hix, Hnd.
  exists (mkObj CompiledProcesses_cls d').
  unfold CompiledProcesses_of. rewrite Hc. split; [reflexivity|].
  unfold CompiledProcesses_index, CompiledProcesses_indices. simpl obj_dict. rewrite Hix.
  set (f := fun i => match dict_get (combine K (seq 0 (length K))) i with
                     | Some k => Ok k
                     | None => Err (KeyError i)
                     end).
  assert (Hf_err : forall i e, f i = Err e -> e = KeyError i /\ ~ In i K).
  { intros i e. unfold f. destruct (dict_get (combine K (seq 0 (length K))) i) eqn:E;
      intros H; inversion H; subst. split; [reflexivity|].
    apply (dict_get_combine_seq_None K 0). exact E. }
  assert (Hf_notin : forall i, ~ In i K -> f i = Err (KeyError i)).
  { intros i Hi. unfold f. rewrite dict_get_combine_seq_notin by exact Hi. reflexivity. }
  split; [|split; [|split]].
  - intros ID HID. rewrite dict_get_combine_seq_notin by exact HID. reflexivity.
  - intros k Hk. rewrite dict_get_combine_seq_nth by assumption. reflexivity.
  - intros IDs [ID [HIn Hnot]]. fold f.
    destruct (mapM f IDs) as [l|e] eqn:E.
    + apply mapM_Ok in E. exfalso.
      destruct (Forall2_In_l _ _ _ _ E HIn) as [y [_ Hy]].
      rewrite Hf_notin in Hy by exact Hnot. discriminate.
    + destruct (mapM_Err f IDs e E) as [x [Hx Hfx]].
      destruct (Hf_err x e Hfx) as [He Hxn]. subst e.
      exists x. auto.
  - intros IDs Hall. fold f.
    destruct (mapM f IDs) as [l|e] eqn:E.
    + exists l. split; [reflexivity|].
      apply mapM_Ok in E. revert E. apply Forall2_impl.
      intros x y Hy. unfold f in Hy.
      destruct (dict_get (combine K (seq 0 (length K))) x) eqn:E'; inversion Hy; subst.
      apply dict_get_combine_seq_Some in E' as [H1 H2]. rewrite Nat.sub_0_r in H2.
      split; [lia | exact H2].
    + exfalso. destruct (mapM_Err f IDs e E) as [x [Hx Hfx]].
      destruct (Hf_err x e Hfx) as [_ Hxn]. apply Hxn.
      rewrite Forall_forall in Hall. apply Hall. exact Hx.
Qed.

(* ================================================================== *)
(** * The ref_component setter *)

Lemma nth_map_div (l : list Q) j factor :
  (nth j (map (fun v => v / factor) l) 0 == nth j l 0 / factor)%Q.
Proof.
  destruct (Nat.lt_ge_cases j (length l)) as [Hj|Hj].
  - rewrite (nth_map_lt _ _ _ _ 0%Q) by exact Hj. reflexivity.
  - rewrite !nth_overflow by (try rewrite length_map; exact Hj).
    unfold Qdiv. ring.
Qed.

Lemma Qabs_cases (c : Q) : (Qabs c == c \/ Qabs c == - c)%Q.
Proof.
  destruct (Qlt_le_dec c 0) as [H|H].
  - right. apply Qabs_neg. apply Qlt_le_weak. exact H.
  - left. apply Qabs_pos. exact H.
Qed.

Lemma Qabs_eq_0 (c : Q) : (Qabs c == 0)%Q -> (c == 0)%Q.
Proof. destruct c as [n d]. unfold Qeq. simpl. lia. Qed.

Lemma set_ref_component_unfold (p : Process) (r : string) (k : nat) :
  r <> "" -> cmp_index (proc_components p) r = Some k ->
  ~ (nth k (proc_stoichiometry p) 0 == 0)%Q ->
  let c := nth k (proc_stoichiometry p) 0%Q in
  let st := map (fun v => v / Qabs c)%Q (proc_stoichiometry p) in
  set_ref_component p r =
  Ok {| proc_ID := proc_ID p; proc_components := proc_components p;
        proc_stoichiometry := st; proc_is_ndarray := proc_is_ndarray p;
        proc_rate_equation := (proc_rate_equation p * nth k st 0)%Q;
        proc_parameters := proc_parameters p; proc_ref_component := r;
        proc_conserved_for := proc_conserved_for p |}.
Proof.
  intros Hr Hk Hc c st.
  unfold set_ref_component.
  destruct (String.eqb r "") eqn:E; [apply String.eqb_eq in E; contradiction|].
  unfold _normalize_stoichiometry. simpl proc_components. rewrite Hk. simpl proc_stoichiometry.
  fold c.
  destruct (Qeq_bool (Qabs c) 0) eqn:Ea.
  - exfalso. apply Qeq_bool_iff in Ea. apply Hc. fold c. apply Qabs_eq_0. exact Ea.
  - cbn [rbind]. unfold _normalize_rate_eq. simpl proc_components. rewrite Hk.
    reflexivity.
Qed.

(** C6 (as the code does it). For a nonzero coefficient [c] of the new
    reference, the setter divides every coefficient by [|c|] (so the new
    reference's coefficient has absolute value 1), then multiplies the rate
    expression by the new reference's coefficient read after that division,
    i.e. by [c/|c|] = sign of [c]. Each component's stoichiometry-weighted
    rate is therefore divided by [c]: it is preserved only when [c = 1]. *)
Theorem set_ref_component_normalizes (p : Process) (r : string) (k : nat) :
  r <> "" -> cmp_index (proc_components p) r = Some k ->
  ~ (nth k (proc_stoichiometry p) 0 == 0)%Q ->
  let c := nth k (proc_stoichiometry p) 0%Q in
  exists p', set_ref_component p r = Ok p' /\ proc_ref_component p' = r /\
    length (proc_stoichiometry p') = length (proc_stoichiometry p) /\
    (forall j, nth j (proc_stoichiometry p') 0 == nth j (proc_stoichiometry p) 0 / Qabs c)%Q /\
    (Qabs (nth k (proc_stoichiometry p') 0) == 1)%Q /\
    (proc_rate_equation p' == proc_rate_equation p * (c / Qabs c))%Q /\
    (forall j, net_rate p' j == net_rate p j / c)%Q.
Proof.
  intros Hr Hk Hc c.
  rewrite (set_ref_component_unfold p r k Hr Hk Hc).
  eexists; split; [reflexivity|]. simpl. fold c.
  assert (Hca : ~ (Qabs c == 0)%Q).
  { intros H. apply Hc. fold c. apply Qabs_eq_0. exact H. }
  assert (Hsign : (c / Qabs c == 1 \/ c / Qabs c == -1)%Q).
  { destruct (Qabs_cases c) as [E|E]; rewrite E in *.
    - left. field. exact Hc.
    - right. field. intros H. apply Hc. exact H. }
  split; [reflexivity|]. split; [apply length_map|].
  split; [intros j; apply nth_map_div|].
  split.
  - rewrite nth_map_div. fold c. destruct Hsign as [E|E]; rewrite E; reflexivity.
  - split.
    + rewrite nth_map_div. fold c. reflexivity.
    + intros j. unfold net_rate. simpl. rewrite !nth_map_div. fold c.
      destruct (Qabs_cases c) as [E|E]; rewrite E.
      * field. exact Hc.
      * field. exact Hc.
Qed.

Lemma set_ref_component_normalizes_witness :
  let p := mkProcess "p" ["A"; "B"] [2%Q; (-4)%Q] true 1%Q [] "B" [] in
  "A" <> "" /\ cmp_index (proc_components p) "A" = Some 0 /\
  ~ (nth 0 (proc_stoichiometry p) 0 == 0)%Q /\
  exists p', set_ref_component p "A" = Ok p' /\ proc_ref_component p' = "A" /\
    length (proc_stoichiometry p') = length (proc_stoichiometry p) /\
    (forall j, nth j (proc_stoichiometry p') 0 == nth j (proc_stoichiometry p) 0 / Qabs 2)%Q /\
    (Qabs (nth 0 (proc_stoichiometry p') 0) == 1)%Q /\
    (proc_rate_equation p' == proc_rate_equation p * (2 / Qabs 2))%Q /\
    (forall j, net_rate p' j == net_rate p j / 2)%Q.
Proof.
  intros p. split; [discriminate|]. split; [reflexivity|].
  split; [intros H; discriminate H|].
  apply (set_ref_component_normalizes p "A" 0).
  - discriminate.
  - reflexivity.
  - intros H. discriminate H.
Defined.

(** C6 fails as stated: with coefficient 2 at the new reference "A", the
    rate is multiplied by 1, not by the signed factor 2, and the net rates
    of both components are halved instead of preserved. *)
Lemma set_ref_component_rate_not_preserved :
  exists p', set_ref_component ref_example "A" = Ok p' /\
    ~ (net_rate p' 0 == net_rate ref_example 0)%Q /\
    ~ (net_rate p' 1 == net_rate ref_example 1)%Q /\
    ~ (proc_rate_equation p' == proc_rate_equation ref_example * 2)%Q.
Proof.
  eexists; split; [reflexivity|].
  split; [|split]; intros H; vm_compute in H; discriminate H.
Qed.

(* ================================================================== *)
(** * subgroup *)

(** C7 (as the code does it). Neither [subgroup] returns a collection:
    [Processes.subgroup] calls [Process] (the single-reaction class) with
    one positional argument, and [CompiledProcesses.subgroup] calls
    [new.compile()] on a [Processes] object, whose class defines no
    [compile] (the compile step of this class is [mycompile]). *)
Theorem subgroup_always_raises :
  (forall (Process_init : list pyval -> result Process) (o : pyobj) (IDs : list string),
     exists e, Processes_subgroup Process_init o IDs = Err e /\
       ((exists a, e = AttributeError a) \/
        e = TypeError "__init__() missing required positional arguments: 'reaction' and 'ref_component'")) /\
  (forall (o : pyobj) (IDs : list string),
     exists e, CompiledProcesses_subgroup o IDs = Err e /\
       (e = KeyError "undefined process" \/ e = AttributeError "ID" \/
        e = AttributeError "compile" \/ e = TypeError "'Process' object is not callable")).
Proof.
  split.
  - intros init o IDs. unfold Processes_subgroup.
    destruct (mapM (getattr_obj o) IDs) as [ms|e] eqn:E; simpl.
    + eexists. split; [reflexivity|]. right. reflexivity.
    + apply mapM_Err in E as [x [_ Hx]]. unfold getattr_obj in Hx.
      destruct (dict_get (obj_dict o) x); [discriminate|].
      destruct (existsb (String.eqb x) (class_attrs (obj_class o))); inversion Hx; subst.
      eexists. split; [reflexivity|]. left. eauto.
  - intros o IDs. unfold CompiledProcesses_subgroup.
    destruct (Processes_getitem o IDs) as [fs|e] eqn:Eg; simpl.
    + unfold Processes_new.
      destruct (Processes_fill [] fs) as [d|e] eqn:Ef; simpl.
      * unfold getattr_obj. simpl obj_dict.
        destruct (dict_get d "compile") as [f|]; simpl.
        -- eexists. split; [reflexivity|]. auto.
        -- eexists. split; [reflexivity|]. auto.
      * exists e. split; [reflexivity|]. right. left.
        assert (forall d0 l e0, Processes_fill d0 l = Err e0 -> e0 = AttributeError "ID") as Hfill.
        { intros d0 l. revert d0. induction l as [|x t IH]; simpl; intros d0 e0 H;
            [discriminate|].
          destruct x; simpl in H; try (inversion H; reflexivity). apply (IH _ _ H). }
        exact (Hfill _ _ _ Ef).
    + exists e. split; [reflexivity|]. left.
      apply mapM_Err in Eg as [x [_ Hx]].
      destruct (dict_get (obj_dict o) x); inversion Hx. reflexivity.
Qed.

Lemma subgroup_example :
  Processes_subgroup (fun _ => Ok proc_p1) (mkObj Processes_cls (processes_dict [proc_p1; proc_p2])) ["p1"]
  = Err (TypeError "__init__() missing required positional arguments: 'reaction' and 'ref_component'") /\
  (exists o, CompiledProcesses_of [proc_p1; proc_p2] = Ok o /\
             CompiledProcesses_subgroup o ["p1"] = Err (AttributeError "compile")).
Proof. split; [reflexivity|]. eexists. split; reflexivity. Qed.

(* ================================================================== *)
(** * copy *)

Lemma Processes_fill_non_process d l f :
  In f l -> (forall p, f <> FProc p) -> Processes_fill d l = Err (AttributeError "ID").
Proof.
  revert d. induction l as [|x t IH]; simpl; intros d Hin Hf; [contradiction|].
  destruct x as [p| | | | | | | | |]; simpl;
    try (destruct Hin as [Hx|Hx]; reflexivity).
  apply IH; auto. destruct Hin as [Hx|Hx]; auto.
  subst f. exfalso. exact (Hf p eq_refl).
Qed.

Lemma dict_get_In_values {V} (d : pydict V) k v :
  dict_get d k = Some v -> In v (values d).
Proof.
  induction d as [|[k' v'] t IH]; simpl; [discriminate|].
  destruct (String.eqb k k'); intros H.
  - inversion H. left. reflexivity.
  - right. apply IH. exact H.
Qed.

(** C8 (as the code does it). [copy] of a compiled collection never
    returns: [Processes(self)] iterates [self.__dict__.values()], which
    after compilation also holds the derived fields ([tuple], [size],
    [IDs], ...), and reading [.ID] on the first of them raises. *)
Theorem compiled_copy_raises (ps : list Process) (o : pyobj) :
  CompiledProcesses_of ps = Ok o -> CompiledProcesses_copy o = Err (AttributeError "ID").
Proof.
  intros H. destruct (compile_index ps) as [d' [Hc [_ Hsize]]].
  unfold CompiledProcesses_of in H. rewrite Hc in H. simpl in H. inversion H; subst o.
  unfold CompiledProcesses_copy, Processes_new. simpl obj_dict.
  rewrite (Processes_fill_non_process [] (values d') (FSize (length (processes_dict ps)))).
  - reflexivity.
  - apply (dict_get_In_values d' "size"). exact Hsize.
  - intros p Hp. discriminate Hp.
Qed.

Lemma compiled_copy_raises_witness :
  exists o, CompiledProcesses_of [proc_p1; proc_p2] = Ok o /\
            CompiledProcesses_copy o = Err (AttributeError "ID").
Proof.
  eexists. split; [reflexivity|].
  apply (compiled_copy_raises [proc_p1; proc_p2]). reflexivity.
Defined.

(* ================================================================== *)
(** * extend *)

Lemma dict_get_None_notin {V} (d : pydict V) k :
  ~ In k (keys d) -> dict_get d k = None.
Proof.
  induction d as [|[k' v'] t IH]; simpl; intros H; [reflexivity|].
  destruct (String.eqb k k') eqn:E.
  - apply String.eqb_eq in E. subst. exfalso. apply H. left. reflexivity.
  - apply IH. intros Hin. apply H. right. exact Hin.
Qed.




Lemma dict_get_Some_keys {V} (d : pydict V) k v :
  dict_get d k = Some v -> In k (keys d).
Proof.
  induction d as [|[k' v'] t IH]; simpl; [discriminate|].
  destruct (String.eqb k k') eqn:E; intros H.
  - apply String.eqb_eq in E. left. symmetry. exact E.
  - right. apply IH. exact H.
Qed.




(* ================================================================== *)
(** * The compilation cache *)

Module CacheFacts.
Import Cache.

Lemma cache_get_set c k o q :
  cache_get (cache_set c k o) q =
  if list_eq_dec Nat.eq_dec q k then Some o else cache_get c q.
Proof.
  induction c as [|[k1 o1] t IH]; simpl.
  - reflexivity.
  - destruct (list_eq_dec Nat.eq_dec k k1) as [E|E]; simpl.
    + subst k1. destruct (list_eq_dec Nat.eq_dec q k); reflexivity.
    + rewrite IH. destruct (list_eq_dec Nat.eq_dec q k1) as [E1|E1];
        destruct (list_eq_dec Nat.eq_dec q k) as [E2|E2]; subst; auto.
      contradiction.
Qed.

Lemma cache_inv_empty : cache_inv empty_heap.
Proof. split; simpl; intros; discriminate. Qed.

Lemma new_step proc_of h t r h' :
  cache_inv h -> CompiledProcesses_new proc_of h t = (r, h') ->
  cache_inv h' /\
  (forall k o, cache_get (cache h) k = Some o -> cache_get (cache h') k = Some o) /\
  (forall o, r = Ok o -> cache_get (cache h') t = Some o).
Proof.
  destruct h as [c obs n]. unfold cache_inv. simpl.
  intros [Hlt Hinj] Hn. unfold CompiledProcesses_new in Hn. simpl in Hn.
  destruct (cache_get c t) as [o0|] eqn:Eg.
  - inversion Hn; subst. simpl. split; [split; auto|]. split; auto.
    intros o Ho. inversion Ho; subst. exact Eg.
  - destruct (_compile (processes_dict (map proc_of t))) as [d|e].
    + inversion Hn; subst. simpl. split; [split|split].
      * intros k o. rewrite cache_get_set.
        destruct (list_eq_dec Nat.eq_dec k t) as [E|E].
        -- intros H. inversion H. lia.
        -- intros H. apply Hlt in H. lia.
      * intros k k' o. rewrite !cache_get_set.
        destruct (list_eq_dec Nat.eq_dec k t) as [E|E];
          destruct (list_eq_dec Nat.eq_dec k' t) as [E'|E']; intros H1 H2.
        -- congruence.
        -- inversion H1; subst. apply Hlt in H2. lia.
        -- inversion H2; subst. apply Hlt in H1. lia.
        -- exact (Hinj _ _ _ H1 H2).
      * intros k o H. rewrite cache_get_set.
        destruct (list_eq_dec Nat.eq_dec k t) as [E|E]; [congruence | exact H].
      * intros o Ho. inversion Ho; subst. rewrite cache_get_set.
        destruct (list_eq_dec Nat.eq_dec t t) as [_|E]; [reflexivity | contradiction].
    + inversion Hn; subst. simpl. split; [split; auto|]. split; auto.
      intros o Ho. discriminate Ho.
Qed.

Lemma reachable_inv proc_of h : reachable proc_of h -> cache_inv h.
Proof.
  induction 1 as [|h t r h' Hr IH Hn].
  - apply cache_inv_empty.
  - exact (proj1 (new_step proc_of h t r h' IH Hn)).
Qed.

Lemma steps_preserve proc_of h h' :
  steps proc_of h h' -> cache_inv h ->
  cache_inv h' /\ (forall k o, cache_get (cache h) k = Some o -> cache_get (cache h') k = Some o).
Proof.
  induction 1 as [h|h t r h1 h2 Hn Hs IH]; intros Hinv.
  - auto.
  - destruct (new_step proc_of h t r h1 Hinv Hn) as [Hinv1 [Hmono _]].
    destruct (IH Hinv1) as [Hinv2 Hmono2]. split; auto.
Qed.

End CacheFacts.

(** C2. From any reachable cache, if [CompiledProcesses(t1)] returns the
    object [o1] and, after any number of further constructions,
    [CompiledProcesses(t2)] returns [o2], then [o1] and [o2] are the same
    object exactly when [t1] and [t2] are the same ordered tuple of process
    identities. *)
Theorem cache_identity (proc_of : nat -> Process) (h h1 h2 h3 : Cache.heap)
    (t1 t2 : list nat) (o1 o2 : nat) :
  Cache.reachable proc_of h ->
  Cache.CompiledProcesses_new proc_of h t1 = (Ok o1, h1) ->
  Cache.steps proc_of h1 h2 ->
  Cache.CompiledProcesses_new proc_of h2 t2 = (Ok o2, h3) ->
  (o1 = o2 <-> t1 = t2).
Proof.
  intros Hr Hn1 Hs Hn2.
  pose proof (CacheFacts.reachable_inv proc_of h Hr) as Hinv.
  destruct (CacheFacts.new_step proc_of h t1 _ h1 Hinv Hn1) as [Hinv1 [_ Hc1]].
  specialize (Hc1 o1 eq_refl).
  destruct (CacheFacts.steps_preserve proc_of h1 h2 Hs Hinv1) as [Hinv2 Hmono].
  apply Hmono in Hc1.
  destruct (CacheFacts.new_step proc_of h2 t2 _ h3 Hinv2 Hn2) as [[_ Hinj3] [Hmono3 Hc2]].
  specialize (Hc2 o2 eq_refl).
  split.
  - intros <-. apply Hmono3 in Hc1. exact (Hinj3 _ _ _ Hc1 Hc2).
  - intros <-. unfold Cache.CompiledProcesses_new in Hn2. rewrite Hc1 in Hn2.
    inversion Hn2. reflexivity.
Qed.

Lemma cache_identity_witness :
  let proc_of := fun n : nat => match n with 0 => proc_p1 | _ => proc_p2 end in
  exists h1 h3,
    Cache.reachable proc_of Cache.empty_heap /\
    Cache.CompiledProcesses_new proc_of Cache.empty_heap [0; 1] = (Ok 0, h1) /\
    Cache.steps proc_of h1 h1 /\
    Cache.CompiledProcesses_new proc_of h1 [0; 1] = (Ok 0, h3) /\
    (0 = 0 <-> [0; 1] = [0; 1]).
Proof.
  intros proc_of. do 2 eexists.
  split; [constructor|]. split; [reflexivity|].
  split; [constructor|]. split; [reflexivity|].
  eapply (cache_identity proc_of); [constructor | reflexivity | constructor | reflexivity].
Defined.

(* ================================================================== *)
(** * PM2.set_parameters and the nutrient-quota bounds *)

(** C9 (amended). If [Q_N_min] or [Q_P_min] is given below its theoretical
    bound, computed from the stoichiometry evaluated with the stoichiometric
    parameters of the same call, [set_parameters] raises [ValueError] and the
    rate-function parameter table is unchanged; but the stoichiometric
    parameters of the same call have already been written to [_parameters]
    and the lambdified stoichiometry is cleared. *)
Theorem set_parameters_rejects_invalid_quota
    (stoichiometry_at : pydict Q -> string -> string -> Q) (m : PM2.PM2) (parameters : pydict Q) :
  let m1 := PM2.mkPM2 (dict_update (PM2.pm2_parameters m) (PM2.stoichio_only parameters))
                      false (PM2.pm2_rate_params m) in
  (exists v, dict_get parameters "Q_N_min" = Some v /\ (v < PM2.Th_Q_N_min stoichiometry_at m1)%Q) \/
  (exists v, dict_get parameters "Q_P_min" = Some v /\ (v < PM2.Th_Q_P_min stoichiometry_at m1)%Q) ->
  exists msg,
    PM2.set_parameters stoichiometry_at m parameters = (m1, Err (ValueError msg)) /\
    PM2.pm2_rate_params m1 = PM2.pm2_rate_params m /\
    PM2.pm2_parameters m1 = dict_update (PM2.pm2_parameters m) (PM2.stoichio_only parameters) /\
    PM2.pm2_stoichio_lambdified m1 = false.
Proof.
  intros m1 Hviol. unfold PM2.set_parameters. fold m1.
  assert (Hb : forall th v, (v < th)%Q -> negb (Qle_bool th v) = true).
  { intros th v Hlt. destruct (Qle_bool th v) eqn:E; [|reflexivity].
    apply Qle_bool_iff in E. exfalso. exact (Qlt_not_le _ _ Hlt E). }
  destruct Hviol as [[v [Hg Hlt]] | [v [Hg Hlt]]].
  - rewrite Hg, (Hb _ _ Hlt). eexists. repeat split.
  - destruct (match dict_get parameters "Q_N_min" with
              | Some v0 => negb (Qle_bool (PM2.Th_Q_N_min stoichiometry_at m1) v0)
              | None => false end).
    + eexists. repeat split.
    + rewrite Hg, (Hb _ _ Hlt). eexists. repeat split.
Qed.

Lemma set_parameters_rejects_invalid_quota_witness :
  let m1 := PM2.mkPM2 (dict_update (PM2.pm2_parameters pm2_state) (PM2.stoichio_only pm2_call))
                      false (PM2.pm2_rate_params pm2_state) in
  (exists v, dict_get pm2_call "Q_N_min" = Some v /\ (v < PM2.Th_Q_N_min pm2_stoich m1)%Q) /\
  exists msg, PM2.set_parameters pm2_stoich pm2_state pm2_call = (m1, Err (ValueError msg)).
Proof.
  intros m1.
  assert (Hv : exists v, dict_get pm2_call "Q_N_min" = Some v /\ (v < PM2.Th_Q_N_min pm2_stoich m1)%Q).
  { exists 0%Q. split; [reflexivity | vm_compute; reflexivity]. }
  split; [exact Hv|].
  destruct (set_parameters_rejects_invalid_quota pm2_stoich pm2_state pm2_call (or_introl Hv))
    as [msg [H _]].
  exists msg. exact H.
Defined.

(** C9 counterexample. [set_parameters(Y_CH_PHO=0.5, Q_N_min=0)] against a
    bound of [0.1001] raises [ValueError], yet [Y_CH_PHO] has changed from
    [0.754] to [0.5] and the lambdified stoichiometry has been cleared: a
    parameter passed in the same call does not remain unchanged. *)
Lemma set_parameters_stores_stoichio_on_error :
  dict_get (PM2.pm2_parameters pm2_state) "Y_CH_PHO" = Some (754 # 1000)%Q /\
  PM2.pm2_stoichio_lambdified pm2_state = true /\
  exists msg,
    snd (PM2.set_parameters pm2_stoich pm2_state pm2_call) = Err (ValueError msg) /\
    dict_get (PM2.pm2_parameters (fst (PM2.set_parameters pm2_stoich pm2_state pm2_call)))
      "Y_CH_PHO" = Some (1 # 2)%Q /\
    PM2.pm2_stoichio_lambdified (fst (PM2.set_parameters pm2_stoich pm2_state pm2_call)) = false /\
    PM2.pm2_rate_params (fst (PM2.set_parameters pm2_stoich pm2_state pm2_call)) =
      PM2.pm2_rate_params pm2_state.
Proof.
  split; [reflexivity|]. split; [reflexivity|].
  eexists. vm_compute. repeat split.
Qed.

(* ================================================================== *)
(** * Further properties of the collection code *)

(** ** Process.reverse *)

Lemma Qopp_involutive (q : Q) : Qopp (Qopp q) = q.
Proof. destruct q as [n d]. unfold Qopp. simpl. rewrite Z.opp_involutive. reflexivity. Qed.

Lemma Qeq_bool_opp_zero (q : Q) : Qeq_bool (Qopp q) 0 = Qeq_bool q 0.
Proof.
  destruct (Qeq_bool q 0) eqn:E.
  - apply Qeq_bool_iff in E. apply Qeq_bool_iff. rewrite E. reflexivity.
  - destruct (Qeq_bool (Qopp q) 0) eqn:E'; [|reflexivity].
    apply Qeq_bool_iff in E'. exfalso.
    assert (Hq : (q == 0)%Q) by (rewrite <- (Qopp_involutive q), E'; reflexivity).
    apply Qeq_bool_iff in Hq. congruence.
Qed.


Lemma dict_set_neg (d : pydict Q) k v :
  dict_set (neg_values d) k (Qopp v) = neg_values (dict_set d k v).
Proof.
  induction d as [|[k1 v1] t IH]; simpl; [reflexivity|].
  destruct (String.eqb k k1); simpl; [reflexivity | rewrite IH; reflexivity].
Qed.

Lemma dict_update_neg (d l : pydict Q) :
  dict_update (neg_values d) (neg_values l) = neg_values (dict_update d l).
Proof.
  unfold dict_update. revert d.
  induction l as [|[k v] t IH]; simpl; intros d; [reflexivity|].
  rewrite dict_set_neg. apply IH.
Qed.

Lemma combine_map_r {A} (l : list A) (m : list Q) :
  combine l (map Qopp m) = map (fun kv => (fst kv, Qopp (snd kv))) (combine l m).
Proof.
  revert m. induction l as [|a t IH]; intros [|b m]; simpl; auto.
  rewrite IH. reflexivity.
Qed.

Lemma stoichiometry_reverse p :
  stoichiometry (reverse p) = neg_values (stoichiometry p).
Proof.
  unfold stoichiometry, reverse. simpl.
  rewrite combine_map_r. unfold dict_of_pairs.
  change (@nil (string * Q)) with (neg_values []).
  fold (neg_values (combine (proc_components p) (proc_stoichiometry p))).
  rewrite dict_update_neg. unfold neg_values.
  rewrite filter_map_swap. f_equal.
  apply filter_ext. intros [k v]. simpl. rewrite Qeq_bool_opp_zero. reflexivity.
Qed.

(** X1. [reverse] is an involution, every component's net rate
    (coefficient times rate) is unchanged by it, and the nonzero
    stoichiometry view keeps its components, in order, with every
    coefficient negated. *)
Theorem reverse_involutive_net_rates (p : Process) :
  reverse (reverse p) = p /\
  (forall j, (net_rate (reverse p) j == net_rate p j)%Q) /\
  stoichiometry (reverse p) = map (fun kv => (fst kv, Qopp (snd kv))) (stoichiometry p).
Proof.
  split; [|split].
  - destruct p as [i c s nd r pa rf cf]. unfold reverse. simpl.
    rewrite map_map, Qopp_involutive.
    rewrite (map_ext (fun x => Qopp (Qopp x)) (fun x => x)) by apply Qopp_involutive.
    rewrite map_id. reflexivity.
  - intros j. unfold net_rate, reverse. simpl.
    destruct (Nat.lt_ge_cases j (length (proc_stoichiometry p))) as [Hj|Hj].
    + rewrite (nth_map_lt _ _ _ _ 0%Q) by exact Hj. ring.
    + rewrite !nth_overflow by (rewrite ?length_map; exact Hj). ring.
  - apply stoichiometry_reverse.
Qed.

(** ** The dict of a collection *)

Lemma In_keys_dict_set_iff {V} (d : pydict V) k v x :
  In x (keys (dict_set d k v)) <-> In x (keys d) \/ x = k.
Proof.
  rewrite keys_dict_set. destruct (existsb (String.eqb k) (keys d)) eqn:E.
  - split; auto. intros [H|H]; auto. subst x.
    apply existsb_exists in E as [y [Hy Hey]]. apply String.eqb_eq in Hey. subst. exact Hy.
  - rewrite in_app_iff. simpl. split; intros [H|H]; auto.
    + destruct H as [H|[]]; auto.
Qed.



Lemma processes_dict_keys_acc ps acc x :
  In x (keys (fold_left (fun d p => dict_set d (proc_ID p) (FProc p)) ps acc)) <->
  In x (keys acc) \/ In x (map proc_ID ps).
Proof.
  revert acc. induction ps as [|p t IH]; simpl; intros acc.
  - tauto.
  - rewrite IH, In_keys_dict_set_iff. intuition.
Qed.

Lemma processes_dict_keys ps x :
  In x (keys (processes_dict ps)) <-> In x (map proc_ID ps).
Proof. unfold processes_dict. rewrite processes_dict_keys_acc. simpl. tauto. Qed.


Lemma processes_dict_nodup_acc ps acc :
  NoDup (keys acc ++ map proc_ID ps) ->
  fold_left (fun d p => dict_set d (proc_ID p) (FProc p)) ps acc =
  (acc ++ map (fun p => (proc_ID p, FProc p)) ps)%list.
Proof.
  revert acc. induction ps as [|p t IH]; simpl; intros acc H.
  - rewrite app_nil_r. reflexivity.
  - rewrite keys_dict_set_fresh.
    + rewrite IH. * rewrite <- app_assoc. reflexivity.
      * unfold keys. rewrite map_app. simpl. rewrite <- app_assoc. exact H.
    + intros Hin. apply NoDup_remove_2 in H. apply H. apply in_or_app. left. exact Hin.
Qed.

Lemma processes_dict_nodup ps :
  NoDup (map proc_ID ps) -> processes_dict ps = map (fun p => (proc_ID p, FProc p)) ps.
Proof. intros H. unfold processes_dict. apply processes_dict_nodup_acc. exact H. Qed.

Lemma dict_get_procs ps p :
  NoDup (map proc_ID ps) -> In p ps ->
  dict_get (map (fun p => (proc_ID p, FProc p)) ps) (proc_ID p) = Some (FProc p).
Proof.
  induction ps as [|q t IH]; simpl; intros Hnd Hin; [contradiction|].
  inversion Hnd as [|? ? Hq Hnd']; subst.
  destruct (String.eqb (proc_ID p) (proc_ID q)) eqn:E.
  - apply String.eqb_eq in E. destruct Hin as [Hin|Hin]; [subst; reflexivity|].
    exfalso. apply Hq. rewrite <- E. apply in_map. exact Hin.
  - destruct Hin as [Hin|Hin]; [subst; rewrite String.eqb_refl in E; discriminate|].
    apply IH; auto.
Qed.



Lemma Processes_fill_values acc d :
  well_keyed d -> NoDup (keys acc ++ keys d) ->
  Processes_fill acc (values d) = Ok (acc ++ d)%list.
Proof.
  revert acc. induction d as [|[k f] t IH]; simpl; intros acc Hwk Hnd.
  - rewrite app_nil_r. reflexivity.
  - inversion Hwk as [|? ? [p [Hf Hk]] Hwk']; subst. simpl in Hf, Hk. subst f k. simpl.
    rewrite keys_dict_set_fresh.
    + rewrite IH; auto. * rewrite <- app_assoc. reflexivity.
      * unfold keys. rewrite map_app. simpl. rewrite <- app_assoc. exact Hnd.
    + intros Hin. apply NoDup_remove_2 in Hnd. apply Hnd. apply in_or_app. left. exact Hin.
Qed.

(** X8. [Processes.copy] of a collection built from processes is a
    [Processes] with the same entries, in the same order, holding the same
    process objects; a collection whose __dict__ holds any other value
    cannot be copied ([AttributeError: ID]). *)
Theorem Processes_copy_same (ps : list Process) :
  Processes_copy (mkObj Processes_cls (processes_dict ps)) =
    Ok (mkObj Processes_cls (processes_dict ps)) /\
  (forall d f, In f (values d) -> (forall p, f <> FProc p) ->
     Processes_copy (mkObj Processes_cls d) = Err (AttributeError "ID")).
Proof.
  split.
  - destruct (processes_dict_wk ps) as [Hwk Hnd].
    unfold Processes_copy. simpl. rewrite Processes_fill_values; auto.
  - intros d f Hin Hf. unfold Processes_copy. simpl.
    rewrite (Processes_fill_non_process [] (values d) f Hin Hf). reflexivity.
Qed.

(** X9. With distinct IDs, [__getitem__] returns the members for their
    IDs in the order asked, and a single member for its ID; an iterable
    with any ID that is not a member raises [KeyError]. *)
Theorem Processes_getitem_roundtrip (ps : list Process) :
  NoDup (map proc_ID ps) ->
  let o := mkObj Processes_cls (processes_dict ps) in
  Processes_getitem o (map proc_ID ps) = Ok (map FProc ps) /\
  (forall p, In p ps -> Processes_getitem_str o (proc_ID p) = Ok (FProc p)) /\
  (forall IDs, (exists ID, In ID IDs /\ ~ In ID (map proc_ID ps)) ->
     Processes_getitem o IDs = Err (KeyError "undefined process")).
Proof.
  intros Hnd o. unfold o. split; [|split].
  - unfold Processes_getitem. simpl. rewrite processes_dict_nodup by exact Hnd.
    assert (H : forall l, incl l ps ->
      mapM (fun i => match dict_get (map (fun p => (proc_ID p, FProc p)) ps) i with
                     | Some f => Ok f | None => Err (KeyError "undefined process") end)
           (map proc_ID l) = Ok (map FProc l)).
    { induction l as [|q t IH]; simpl; intros Hincl; [reflexivity|].
      rewrite dict_get_procs; auto; [|apply Hincl; left; reflexivity].
      simpl. rewrite IH; [reflexivity|]. intros x Hx. apply Hincl. right. exact Hx. }
    apply H. intros x Hx. exact Hx.
  - intros p Hp. unfold Processes_getitem_str. simpl.
    rewrite processes_dict_nodup, dict_get_procs; auto.
  - intros IDs [ID [Hin Hout]]. unfold Processes_getitem. simpl.
    destruct (mapM _ IDs) as [ys|e] eqn:E.
    + apply mapM_Ok in E. exfalso.
      destruct (Forall2_In_l _ _ _ _ E Hin) as [y [_ Hy]].
      rewrite dict_get_None_notin in Hy; [discriminate|].
      rewrite processes_dict_keys. exact Hout.
    + apply mapM_Err in E as [x [_ Hx]].
      destruct (dict_get (processes_dict ps) x); inversion Hx. reflexivity.
Qed.


(** ** The dict [_compile] leaves *)

Ltac fresh_chain Hfr :=
  let Hin := fresh "Hin" in
  intros Hin;
  repeat (apply In_keys_dict_set in Hin; destruct Hin as [Hin|Hin]; [|discriminate Hin]);
  eapply Hfr; [|exact Hin]; simpl; tauto.

Lemma compile_fields (ps : list Process) :
  let d := processes_dict ps in
  exists procs M,
    values d = map FProc procs /\ keys d = map proc_ID procs /\
    let IDs := map proc_ID procs in
    let cmps := Components_merge (flat_map proc_components procs) in
    let params := fold_left (fun acc p => dict_update acc (proc_parameters p)) procs [] in
    let rates := map proc_rate_equation procs in
    mapM (stoich_row cmps) procs = Ok M /\
    let derived :=
      [("tuple", FTuple (map FProc procs)); ("size", FSize (length IDs)); ("IDs", FIDs IDs);
       ("_index", FIndex (dict_of_pairs (combine IDs (seq 0 (length IDs)))));
       ("_components", FComponents cmps); ("_parameters", FParameters params);
       ("_stoichiometry", FStoichiometry M); ("_rate_equations", FRateEquations rates);
       ("_production_rates", FProductionRates (matT_mul_vec (length cmps) M rates))] in
    exists d', _compile d = Ok d' /\
      (forall k, dict_get d' k =
                 match dict_get derived k with Some f => Some f | None => dict_get d k end) /\
      ((forall k, In k compiled_fields -> ~ In k (keys d)) -> d' = (d ++ derived)%list).
Proof.
  intros d.
  destruct (processes_dict_wk ps) as [Hwk Hnd].
  destruct (well_keyed_procs d Hwk) as [procs [Hv Hk]].
  set (cmps := Components_merge (flat_map proc_components procs)).
  destruct (mapM_stoich_row cmps procs) as [M [HM _]].
  { intros p c Hp Hc. apply Components_merge_In. apply in_flat_map. eauto. }
  exists procs, M. split; [exact Hv|]. split; [exact Hk|].
  intros IDs cmps' params rates. split; [exact HM|]. intros derived.
  unfold _compile. rewrite Hv, mapM_getID. cbn [rbind]. rewrite mapM_as_process. cbn [rbind].
  fold cmps. rewrite HM. cbn [rbind].
  eexists; split; [reflexivity|]. split.
  - intros k. rewrite !dict_get_set. unfold derived. simpl dict_get.
    repeat match goal with |- context [String.eqb k ?s] =>
      destruct (String.eqb_spec k s) as [E|?]; [subst k; reflexivity|] end;
    reflexivity.
  - intros Hfr. fold IDs.
    repeat (rewrite keys_dict_set_fresh by fresh_chain Hfr).
    rewrite <- !app_assoc. reflexivity.
Qed.

Lemma existsb_keys_dict_get {V} (d : pydict V) k :
  existsb (String.eqb k) (keys d) =
  match dict_get d k with Some _ => true | None => false end.
Proof.
  induction d as [|[k' v'] t IH]; simpl; [reflexivity|].
  destruct (String.eqb k k'); simpl; [reflexivity | exact IH].
Qed.

Lemma compiled_fields_fresh ps :
  (forall p, In p ps -> ~ In (proc_ID p) compiled_fields) ->
  forall k, In k compiled_fields -> ~ In k (keys (processes_dict ps)).
Proof.
  intros H k Hk Hin. apply processes_dict_keys, in_map_iff in Hin as [p [Hp Hin]].
  subst k. exact (H p Hin Hk).
Qed.

(** X6. When no member ID is one of the nine derived field names,
    [CompiledProcesses(ps)] keeps the members first, in their order, and
    appends the nine fields after them: [len] counts nine more entries,
    [repr] lists the members' IDs followed by the field names, and
    iteration yields the members followed by nine values that are not
    processes. *)
Theorem CompiledProcesses_layout (ps : list Process) :
  (forall p, In p ps -> ~ In (proc_ID p) compiled_fields) ->
  let P := mkObj Processes_cls (processes_dict ps) in
  exists o, CompiledProcesses_of ps = Ok o /\
    keys (obj_dict o) = (keys (obj_dict P) ++ compiled_fields)%list /\
    Processes_len o = Processes_len P + 9 /\
    Processes_repr o =
      "CompiledProcesses([" ++ join ", " (keys (obj_dict P) ++ compiled_fields)%list ++ "])" /\
    exists rest, Processes_iter o = (Processes_iter P ++ rest)%list /\ length rest = 9 /\
      (forall f, In f rest -> forall p, f <> FProc p).
Proof.
  intros H P. pose proof (compile_fields ps) as HC. cbv zeta in HC.
  destruct HC as [procs [M [Hv [Hk [HM [d' [Hc [_ Happ]]]]]]]].
  rewrite (Happ (compiled_fields_fresh ps H)) in Hc.
  eexists. split.
  { unfold CompiledProcesses_of. rewrite Hc. reflexivity. }
  unfold P, Processes_len, Processes_repr, Processes_iter. simpl obj_dict.
  unfold keys, values. rewrite !map_app, length_app.
  split; [reflexivity|]. split; [reflexivity|]. split; [reflexivity|].
  eexists. split; [reflexivity|]. split; [reflexivity|].
  intros f Hf p. simpl in Hf. intuition (subst; discriminate).
Qed.

(** X7. In a compiled collection the nine derived field names are always
    present ([in] is true) and [__getitem__] on them never returns a
    process, even when a member has that ID; for every other key,
    [__getitem__] and [in] answer as on the uncompiled collection. *)
Theorem CompiledProcesses_field_names (ps : list Process) :
  let P := mkObj Processes_cls (processes_dict ps) in
  exists o, CompiledProcesses_of ps = Ok o /\
    (forall k, In k compiled_fields ->
       Processes_contains_str o k = true /\
       forall p, Processes_getitem_str o k <> Ok (FProc p)) /\
    (forall k, ~ In k compiled_fields ->
       Processes_getitem_str o k = Processes_getitem_str P k /\
       Processes_contains_str o k = Processes_contains_str P k).
Proof.
  intros P. pose proof (compile_fields ps) as HC. cbv zeta in HC.
  destruct HC as [procs [M [Hv [Hk [HM [d' [Hc [Hget _]]]]]]]].
  exists (mkObj CompiledProcesses_cls d'). split.
  { unfold CompiledProcesses_of. rewrite Hc. reflexivity. }
  unfold Processes_contains_str, Processes_getitem_str, P. simpl obj_dict.
  split.
  - intros k Hk'. rewrite existsb_keys_dict_get, Hget.
    simpl in Hk'. repeat destruct Hk' as [<-|Hk']; try contradiction;
      simpl; split; try reflexivity; discriminate.
  - intros k Hk'. rewrite !existsb_keys_dict_get, Hget.
    rewrite dict_get_None_notin by exact Hk'. split; reflexivity.
Qed.

(** X11. [mycompile] on a collection built from processes succeeds and
    turns it into a [CompiledProcesses]; calling [mycompile] again on the
    result raises [AttributeError] (reading [.ID] on a derived field). *)
Theorem mycompile_twice_raises (ps : list Process) :
  exists o, Processes_mycompile (mkObj Processes_cls (processes_dict ps)) = Ok o /\
    obj_class o = CompiledProcesses_cls /\
    Processes_mycompile o = Err (AttributeError "ID").
Proof.
  pose proof (compile_fields ps) as HC. cbv zeta in HC.
  destruct HC as [procs [M [Hv [Hk [HM [d' [Hc [Hget _]]]]]]]].
  exists (mkObj CompiledProcesses_cls d'). split.
  { unfold Processes_mycompile. simpl obj_dict. rewrite Hc. reflexivity. }
  split; [reflexivity|].
  unfold Processes_mycompile, _compile. simpl obj_dict.
  assert (Ht : In (FTuple (map FProc procs)) (values d')).
  { apply (dict_get_In_values d' "tuple"). rewrite Hget. reflexivity. }
  destruct (mapM getID (values d')) as [IDs|e] eqn:E.
  - apply mapM_Ok in E. destruct (Forall2_In_l _ _ _ _ E Ht) as [y [_ Hy]].
    discriminate Hy.
  - apply mapM_Err in E as [x [_ Hx]]. simpl.
    destruct x; simpl in Hx; inversion Hx; reflexivity.
Qed.

Lemma Processes_getitem_roundtrip_witness :
  NoDup (map proc_ID [proc_p1; proc_p2]) /\
  let o := mkObj Processes_cls (processes_dict [proc_p1; proc_p2]) in
  Processes_getitem o (map proc_ID [proc_p1; proc_p2]) = Ok (map FProc [proc_p1; proc_p2]) /\
  (forall p, In p [proc_p1; proc_p2] -> Processes_getitem_str o (proc_ID p) = Ok (FProc p)) /\
  (forall IDs, (exists ID, In ID IDs /\ ~ In ID (map proc_ID [proc_p1; proc_p2])) ->
     Processes_getitem o IDs = Err (KeyError "undefined process")).
Proof.
  assert (H : NoDup (map proc_ID [proc_p1; proc_p2])).
  { simpl. constructor; [simpl; intros [H|[]]; discriminate H|].
    constructor; [intros []|constructor]. }
  split; [exact H | exact (Processes_getitem_roundtrip [proc_p1; proc_p2] H)].
Defined.

Lemma CompiledProcesses_layout_witness :
  (forall p, In p [proc_p1; proc_p2] -> ~ In (proc_ID p) compiled_fields) /\
  let P := mkObj Processes_cls (processes_dict [proc_p1; proc_p2]) in
  exists o, CompiledProcesses_of [proc_p1; proc_p2] = Ok o /\
    keys (obj_dict o) = (keys (obj_dict P) ++ compiled_fields)%list /\
    Processes_len o = Processes_len P + 9 /\
    Processes_repr o =
      "CompiledProcesses([" ++ join ", " (keys (obj_dict P) ++ compiled_fields)%list ++ "])" /\
    exists rest, Processes_iter o = (Processes_iter P ++ rest)%list /\ length rest = 9 /\
      (forall f, In f rest -> forall p, f <> FProc p).
Proof.
  assert (H : forall p, In p [proc_p1; proc_p2] -> ~ In (proc_ID p) compiled_fields).
  { intros p [<-|[<-|[]]]; simpl; intuition discriminate. }
  split; [exact H | exact (CompiledProcesses_layout [proc_p1; proc_p2] H)].
Defined.

(** ** Sorted parameter names *)

Lemma str_leb_trans : Transitive (fun x y => is_true (StrOrder.leb x y)).
Proof.
  intros x y z Hxy Hyz. unfold is_true, StrOrder.leb in *.
  assert (H1 : String_as_OT.lt x y \/ x = y).
  { destruct (String_as_OT.compare_spec x y); auto; discriminate. }
  assert (H2 : String_as_OT.lt y z \/ y = z).
  { destruct (String_as_OT.compare_spec y z); auto; discriminate. }
  destruct (String_as_OT.compare_spec x z) as [E|E|E]; auto. exfalso.
  apply (StrictOrder_Irreflexive z).
  destruct H1 as [H1|<-], H2 as [H2|<-].
  - apply (StrictOrder_Transitive _ x); [exact E|].
    apply (StrictOrder_Transitive _ y); assumption.
  - apply (StrictOrder_Transitive _ x); assumption.
  - apply (StrictOrder_Transitive _ x); assumption.
  - exact E.
Qed.

Lemma strongly_sorted_strict (l : list string) :
  StronglySorted (fun x y => is_true (StrOrder.leb x y)) l -> NoDup l ->
  StronglySorted (fun x y => String_as_OT.compare x y = Lt) l.
Proof.
  intros Hs. induction Hs as [|a t Hs IH Hall]; intros Hnd; constructor.
  - inversion Hnd; subst. apply IH. assumption.
  - inversion Hnd as [|? ? Hnot _]; subst. rewrite Forall_forall in *.
    intros y Hy. specialize (Hall y Hy). unfold is_true, StrOrder.leb in Hall.
    destruct (String_as_OT.compare_spec a y) as [E|E|E]; try discriminate; auto.
    exfalso. apply Hnot. rewrite E. exact Hy.
Qed.

Lemma sort_strict (l : list string) :
  NoDup l ->
  StronglySorted (fun x y => String_as_OT.compare x y = Lt) (StrSort.sort l) /\
  (forall x, In x (StrSort.sort l) <-> In x l).
Proof.
  intros Hnd. pose proof (StrSort.Permuted_sort l) as Hp. split.
  - apply strongly_sorted_strict.
    + exact (StrSort.StronglySorted_sort l str_leb_trans).
    + exact (Permutation_NoDup Hp Hnd).
  - intros x. split; intros H.
    + exact (Permutation_in _ (Permutation_sym Hp) H).
    + exact (Permutation_in _ Hp H).
Qed.

Lemma set_names_keys (new_pars : list string) (d : pydict string) :
  NoDup (keys d) ->
  NoDup (keys (fold_left (fun d n => dict_set d n n) new_pars d)) /\
  (forall x, In x (keys (fold_left (fun d n => dict_set d n n) new_pars d)) <->
             In x (keys d) \/ In x new_pars).
Proof.
  revert d. induction new_pars as [|n t IH]; simpl; intros d Hnd.
  - split; [exact Hnd|]. tauto.
  - destruct (IH (dict_set d n n) (NoDup_keys_set d n n Hnd)) as [H1 H2].
    split; [exact H1|]. intros x. rewrite H2, In_keys_dict_set_iff. intuition.
Qed.

Lemma set_names_get (new_pars : list string) (d : pydict string) k :
  dict_get (fold_left (fun d n => dict_set d n n) new_pars d) k =
  if existsb (String.eqb k) new_pars then Some k else dict_get d k.
Proof.
  revert d. induction new_pars as [|n t IH]; simpl; intros d; [reflexivity|].
  rewrite IH, dict_get_set.
  destruct (String.eqb k n) eqn:E; simpl; [|reflexivity].
  apply String.eqb_eq in E. subst. destruct (existsb _ t); reflexivity.
Qed.

Lemma In_keys_dict_update_iff {V} (l d : pydict V) x :
  In x (keys (dict_update d l)) <-> In x (keys d) \/ In x (keys l).
Proof.
  unfold dict_update. revert d.
  induction l as [|[k v] t IH]; simpl; intros d; [tauto|].
  rewrite IH, In_keys_dict_set_iff. intuition.
Qed.

Lemma NoDup_keys_update {V} (l d : pydict V) :
  NoDup (keys d) -> NoDup (keys (dict_update d l)).
Proof.
  unfold dict_update. revert d.
  induction l as [|[k v] t IH]; simpl; intros d H; [exact H|].
  apply IH, NoDup_keys_set, H.
Qed.

Lemma params_fold_keys (procs : list Process) (acc : pydict string) :
  NoDup (keys acc) ->
  let r := fold_left (fun acc p => dict_update acc (proc_parameters p)) procs acc in
  NoDup (keys r) /\
  (forall x, In x (keys r) <->
             In x (keys acc) \/ exists p, In p procs /\ In x (keys (proc_parameters p))).
Proof.
  revert acc. induction procs as [|p t IH]; simpl; intros acc Hnd.
  - split; [exact Hnd|]. intros x. split; [tauto|]. intros [H|[q [[] _]]]. exact H.
  - destruct (IH (dict_update acc (proc_parameters p)) (NoDup_keys_update _ _ Hnd)) as [H1 H2].
    split; [exact H1|]. intros x. rewrite H2, In_keys_dict_update_iff. split.
    + intros [[H|H]|[q [Hq Hx]]]; eauto.
    + intros [H|[q [[<-|Hq] Hx]]]; eauto.
Qed.

(** X3. After [append_parameters], [Process.parameters] lists the names of
    the old parameters together with the appended ones, each once, in
    increasing order; every appended name now maps to its own new symbol
    (an existing entry is replaced) and every other entry is kept. *)
Theorem append_parameters_parameters (p : Process) (new_pars : list string) :
  NoDup (keys (proc_parameters p)) ->
  let q := append_parameters p new_pars in
  StronglySorted (fun x y => String_as_OT.compare x y = Lt) (Process_parameters q) /\
  (forall x, In x (Process_parameters q) <-> In x (Process_parameters p) \/ In x new_pars) /\
  (forall n, In n new_pars -> dict_get (proc_parameters q) n = Some n) /\
  (forall k, ~ In k new_pars -> dict_get (proc_parameters q) k = dict_get (proc_parameters p) k).
Proof.
  intros Hnd q. unfold q, Process_parameters, append_parameters. simpl proc_parameters.
  destruct (set_names_keys new_pars _ Hnd) as [Hnd' Hin].
  destruct (sort_strict _ Hnd') as [Hs Hs_in].
  destruct (sort_strict _ Hnd) as [_ Hp_in].
  split; [exact Hs|]. split; [|split].
  - intros x. rewrite Hs_in, Hin, Hp_in. tauto.
  - intros n Hn. rewrite set_names_get.
    replace (existsb (String.eqb n) new_pars) with true; [reflexivity|].
    symmetry. apply existsb_exists. exists n. split; [exact Hn | apply String.eqb_refl].
  - intros k Hk. rewrite set_names_get.
    destruct (existsb (String.eqb k) new_pars) eqn:E; [|reflexivity].
    apply existsb_exists in E as [y [Hy E]]. apply String.eqb_eq in E. subst. contradiction.
Qed.

(** X4. The [parameters] of a compiled collection are the names of the
    parameters of its member processes, each once, in increasing order. *)
Theorem CompiledProcesses_parameters_sorted (ps : list Process) :
  exists o l, CompiledProcesses_of ps = Ok o /\ CompiledProcesses_parameters o = Ok l /\
    StronglySorted (fun x y => String_as_OT.compare x y = Lt) l /\
    (forall x, In x l <->
       exists p, In (FProc p) (Processes_iter (mkObj Processes_cls (processes_dict ps))) /\
                 In x (keys (proc_parameters p))).
Proof.
  pose proof (compile_fields ps) as HC. cbv zeta in HC.
  destruct HC as [procs [M [Hv [Hk [HM [d' [Hc [Hget _]]]]]]]].
  destruct (params_fold_keys procs [] (NoDup_nil _)) as [Hnd Hin]. cbv zeta in Hnd, Hin.
  destruct (sort_strict _ Hnd) as [Hs Hs_in].
  eexists (mkObj CompiledProcesses_cls d'), _. split.
  { unfold CompiledProcesses_of. rewrite Hc. reflexivity. }
  split.
  { unfold CompiledProcesses_parameters. simpl obj_dict. rewrite Hget. simpl. reflexivity. }
  split; [exact Hs|].
  intros x. rewrite Hs_in, Hin. unfold Processes_iter. simpl obj_dict. rewrite Hv.
  split.
  - intros [[]|[p [Hp Hx]]]. exists p. split; [apply in_map; exact Hp | exact Hx].
  - intros [p [Hp Hx]]. right. exists p. split; [|exact Hx].
    apply in_map_iff in Hp as [p' [E Hp']]. inversion E; subst. exact Hp'.
Qed.

Lemma append_parameters_parameters_witness :
  NoDup (keys (proc_parameters proc_growth)) /\
  let q := append_parameters proc_growth ["K"; "b"] in
  StronglySorted (fun x y => String_as_OT.compare x y = Lt) (Process_parameters q) /\
  (forall x, In x (Process_parameters q) <->
             In x (Process_parameters proc_growth) \/ In x ["K"; "b"]) /\
  (forall n, In n ["K"; "b"] -> dict_get (proc_parameters q) n = Some n) /\
  (forall k, ~ In k ["K"; "b"] ->
             dict_get (proc_parameters q) k = dict_get (proc_parameters proc_growth) k).
Proof.
  assert (H : NoDup (keys (proc_parameters proc_growth))) by (simpl; repeat constructor; simpl; intuition discriminate).
  split; [exact H | exact (append_parameters_parameters proc_growth ["K"; "b"] H)].
Defined.

(** ** The clamps of _pm2.py *)

Lemma py_max_cases (a b : Q) :
  (b <= a /\ py_max a b = a)%Q \/ (a < b /\ py_max a b = b)%Q.
Proof.
  unfold py_max. destruct (Qle_bool b a) eqn:E.
  - left. split; [apply Qle_bool_iff; exact E | reflexivity].
  - right. split; [|reflexivity]. apply Qnot_le_lt. intros H.
    apply Qle_bool_iff in H. congruence.
Qed.

Lemma py_min_cases (a b : Q) :
  (a <= b /\ py_min a b = a)%Q \/ (b < a /\ py_min a b = b)%Q.
Proof.
  unfold py_min. destruct (Qle_bool a b) eqn:E.
  - left. split; [apply Qle_bool_iff; exact E | reflexivity].
  - right. split; [|reflexivity]. apply Qnot_le_lt. intros H.
    apply Qle_bool_iff in H. congruence.
Qed.

(** X12. With a nonzero denominator, [ratio] stays within
    [[minimum, maximum]] when [minimum <= maximum], returns the quotient
    itself when it already lies in that range, and returns [maximum]
    whenever [maximum < minimum]. *)
Theorem ratio_clamp (numerator denominator minimum maximum : Q) :
  ~ (denominator == 0)%Q ->
  ((minimum <= maximum)%Q ->
     (minimum <= ratio numerator denominator minimum maximum <= maximum)%Q) /\
  ((minimum <= numerator / denominator <= maximum)%Q ->
     (ratio numerator denominator minimum maximum == numerator / denominator)%Q) /\
  ((maximum < minimum)%Q -> ratio numerator denominator minimum maximum = maximum).
Proof.
  intros _. unfold ratio. set (x := (numerator / denominator)%Q).
  destruct (py_max_cases minimum x) as [[H1 E1]|[H1 E1]]; rewrite E1.
  - destruct (py_min_cases minimum maximum) as [[H2 E2]|[H2 E2]]; rewrite E2.
    + split; [|split]; intros H; [split; lra | lra | lra].
    + split; [|split]; intros H; [lra | lra | reflexivity].
  - destruct (py_min_cases x maximum) as [[H2 E2]|[H2 E2]]; rewrite E2.
    + split; [|split]; intros H; [split; lra | reflexivity | lra].
    + split; [|split]; intros H; [split; lra | lra | reflexivity].
Qed.

Lemma ratio_clamp_witness :
  ~ (2 == 0)%Q /\
  ((0 <= 1)%Q -> (0 <= ratio 3 2 0 1 <= 1)%Q) /\
  ((0 <= 3 / 2 <= 1)%Q -> (ratio 3 2 0 1 == 3 / 2)%Q) /\
  ((1 < 0)%Q -> ratio 3 2 0 1 = 1%Q).
Proof.
  assert (H : ~ (2 == 0)%Q) by (intros H; discriminate H).
  split; [exact H | exact (ratio_clamp 3 2 0 1 H)].
Defined.

(** X13. [irrad_response] is 0 when the carbon content is not positive;
    otherwise, when its divisions are defined, it lies in [[0, 1]] and is
    the Eilers-Peeters value [f_I] itself whenever that value is already
    in [[0, 1]]. *)
Theorem irrad_response_range (i_avg X_CHL X_carbon I_n I_opt : Q) :
  ((X_carbon <= 0)%Q -> irrad_response i_avg X_CHL X_carbon I_n I_opt = 0%Q) /\
  ((0 < X_carbon)%Q -> ~ (I_opt == 0)%Q ->
   let den := (i_avg + I_n * ((1 # 4) - (5 * X_CHL / X_carbon)) *
               ((i_avg ^ 2 / I_opt ^ 2) - (2 * i_avg / I_opt) + 1))%Q in
   ~ (den == 0)%Q ->
   (0 <= irrad_response i_avg X_CHL X_carbon I_n I_opt <= 1)%Q /\
   ((0 <= i_avg / den <= 1)%Q -> (irrad_response i_avg X_CHL X_carbon I_n I_opt == i_avg / den)%Q)).
Proof.
  split.
  - intros H. unfold irrad_response. apply Qle_bool_iff in H. rewrite H. reflexivity.
  - intros H _ den _. unfold irrad_response.
    destruct (Qle_bool X_carbon 0) eqn:E.
    { apply Qle_bool_iff in E. lra. }
    simpl negb. cbv iota zeta. fold den. set (f := (i_avg / den)%Q).
    destruct (py_max_cases 0 f) as [[H1 E1]|[H1 E1]]; rewrite E1.
    + destruct (py_min_cases 1 0) as [[H2 E2]|[H2 E2]]; rewrite E2;
        [lra | split; [lra | intros; lra]].
    + destruct (py_min_cases 1 f) as [[H2 E2]|[H2 E2]]; rewrite E2.
      * split; [lra | intros; lra].
      * split; [lra | intros; reflexivity].
Qed.

(** ** Reversing every process of a compiled collection *)

Lemma set_nth_map {A B} (f : A -> B) (l : list A) k v :
  set_nth (map f l) k (f v) = map f (set_nth l k v).
Proof.
  revert k. induction l as [|x t IH]; intros [|k]; simpl; auto. rewrite IH. reflexivity.
Qed.

Lemma fill_row_neg cmps st e :
  fill_row cmps (map Qopp st) (neg_values e) =
  match fill_row cmps st e with Ok r => Ok (map Qopp r) | Err x => Err x end.
Proof.
  revert st. induction e as [|[c v] t IH]; simpl; intros st; [reflexivity|].
  destruct (cmp_index cmps c) as [k|]; [|reflexivity].
  rewrite set_nth_map. apply IH.
Qed.

Lemma stoich_row_reverse cmps p :
  stoich_row cmps (reverse p) =
  match stoich_row cmps p with Ok r => Ok (map Qopp r) | Err x => Err x end.
Proof.
  unfold stoich_row. rewrite stoichiometry_reverse.
  rewrite <- fill_row_neg. rewrite map_repeat. reflexivity.
Qed.

Lemma mapM_stoich_row_reverse cmps procs M :
  mapM (stoich_row cmps) procs = Ok M ->
  mapM (stoich_row cmps) (map reverse procs) = Ok (map (map Qopp) M).
Proof.
  revert M. induction procs as [|p t IH]; simpl; intros M H.
  - inversion H. reflexivity.
  - rewrite stoich_row_reverse.
    destruct (stoich_row cmps p) as [r|e]; simpl in *; [|discriminate].
    destruct (mapM (stoich_row cmps) t) as [M'|e]; simpl in *; [|discriminate].
    inversion H; subst. rewrite (IH M' eq_refl). reflexivity.
Qed.

Lemma Qsum_neg_products j (M : list (list Q)) (r : list Q) :
  (Qsum (map (fun rr => (nth j (fst rr) 0 * snd rr)%Q) (combine (map (map Qopp) M) (map Qopp r)))
   == Qsum (map (fun rr => (nth j (fst rr) 0 * snd rr)%Q) (combine M r)))%Q.
Proof.
  revert r. induction M as [|row t IH]; intros [|x r]; simpl; try reflexivity.
  rewrite IH. change 0%Q with (Qopp 0) at 1. rewrite map_nth. ring.
Qed.

Lemma matT_mul_vec_neg n M r :
  Forall2 Qeq (matT_mul_vec n (map (map Qopp) M) (map Qopp r)) (matT_mul_vec n M r).
Proof.
  unfold matT_mul_vec. induction (seq 0 n) as [|j t IH]; simpl; constructor; auto.
  apply Qsum_neg_products.
Qed.

Lemma dict_set_Qeq (d1 d2 : pydict Q) k v1 v2 :
  Forall2 (fun a b => fst a = fst b /\ (snd a == snd b)%Q) d1 d2 -> (v1 == v2)%Q ->
  Forall2 (fun a b => fst a = fst b /\ (snd a == snd b)%Q) (dict_set d1 k v1) (dict_set d2 k v2).
Proof.
  intros H Hv. induction H as [|[k1 x1] [k2 x2] t1 t2 [Hk Hx] Ht IH]; simpl in *.
  - repeat constructor; assumption.
  - subst k2. destruct (String.eqb k k1); constructor; auto.
Qed.

Lemma dict_of_pairs_combine_Qeq (c : list string) (v1 v2 : list Q) :
  Forall2 Qeq v1 v2 ->
  Forall2 (fun a b => fst a = fst b /\ (snd a == snd b)%Q)
          (dict_of_pairs (combine c v1)) (dict_of_pairs (combine c v2)).
Proof.
  unfold dict_of_pairs, dict_update.
  assert (G : forall (d1 d2 : pydict Q) c v1 v2,
    Forall2 (fun a b => fst a = fst b /\ (snd a == snd b)%Q) d1 d2 -> Forall2 Qeq v1 v2 ->
    Forall2 (fun a b => fst a = fst b /\ (snd a == snd b)%Q)
      (fold_left (fun d kv => dict_set d (fst kv) (snd kv)) (combine c v1) d1)
      (fold_left (fun d kv => dict_set d (fst kv) (snd kv)) (combine c v2) d2)).
  { intros d1 d2 c'. revert d1 d2.
    induction c' as [|x t IH]; intros d1 d2 w1 w2 Hd Hw; simpl; [exact Hd|].
    destruct Hw as [|a b w1 w2 Hab Hw]; simpl; [exact Hd|].
    apply IH; [apply dict_set_Qeq|]; assumption. }
  intros H. apply G; [constructor | exact H].
Qed.

Lemma processes_dict_reverse_acc ps acc :
  let G := fun f => match f with FProc p => FProc (reverse p) | f => f end in
  fold_left (fun d p => dict_set d (proc_ID p) (FProc p)) (map reverse ps)
            (map (fun kv => (fst kv, G (snd kv))) acc) =
  map (fun kv => (fst kv, G (snd kv)))
      (fold_left (fun d p => dict_set d (proc_ID p) (FProc p)) ps acc).
Proof.
  intros G. revert acc. induction ps as [|p t IH]; simpl; intros acc; [reflexivity|].
  rewrite <- IH. f_equal. clear IH.
  induction acc as [|[k f] a IH]; simpl; [reflexivity|].
  change (proc_ID (reverse p)) with (proc_ID p).
  destruct (String.eqb (proc_ID p) k); simpl; [reflexivity | rewrite IH; reflexivity].
Qed.

Lemma map_FProc_inj (l1 l2 : list Process) : map FProc l1 = map FProc l2 -> l1 = l2.
Proof.
  revert l2. induction l1 as [|a t IH]; intros [|b l2]; simpl; intros H;
    inversion H; [reflexivity|]. f_equal. apply IH. assumption.
Qed.

(** X2. Reversing every process of a collection before compiling it
    leaves the compiled components and production rates unchanged (up to
    rational equality), while the stoichiometric matrix and the rate
    equations are negated. *)
Theorem reverse_all_production_rates (ps : list Process) :
  exists o o', CompiledProcesses_of ps = Ok o /\
    CompiledProcesses_of (map reverse ps) = Ok o' /\
    get_components (obj_dict o') = get_components (obj_dict o) /\
    get_stoichiometry (obj_dict o') = map (map Qopp) (get_stoichiometry (obj_dict o)) /\
    get_rate_equations (obj_dict o') = map Qopp (get_rate_equations (obj_dict o)) /\
    Forall2 (fun a b => fst a = fst b /\ (snd a == snd b)%Q)
            (production_rates (obj_dict o')) (production_rates (obj_dict o)).
Proof.
  pose proof (compile_fields ps) as HC. cbv zeta in HC.
  destruct HC as [procs [M [Hv [Hk [HM [d [Hc [Hget _]]]]]]]].
  pose proof (compile_fields (map reverse ps)) as HC. cbv zeta in HC.
  destruct HC as [procs' [M' [Hv' [Hk' [HM' [d' [Hc' [Hget' _]]]]]]]].
  pose proof (processes_dict_reverse_acc ps []) as Hr. cbv zeta in Hr.
  change (map _ (@nil (string * field))) with (@nil (string * field)) in Hr.
  assert (Hp : procs' = map reverse procs).
  { apply map_FProc_inj. rewrite <- Hv'. unfold processes_dict in *. unfold values in *.
    rewrite Hr, map_map. simpl.
    rewrite <- (map_map snd (fun f => match f with FProc p => FProc (reverse p) | _ => f end)).
    rewrite Hv, !map_map. reflexivity. }
  subst procs'.
  assert (Hcm : forall l, flat_map proc_components (map reverse l) = flat_map proc_components l).
  { induction l as [|p t IH]; simpl; [reflexivity | rewrite IH; reflexivity]. }
  rewrite Hcm in HM', Hget'.
  rewrite (mapM_stoich_row_reverse _ _ _ HM) in HM'. inversion HM'; subst M'.
  exists (mkObj CompiledProcesses_cls d), (mkObj CompiledProcesses_cls d').
  split; [unfold CompiledProcesses_of; rewrite Hc; reflexivity|].
  split; [unfold CompiledProcesses_of; rewrite Hc'; reflexivity|].
  unfold production_rates, get_components, get_stoichiometry, get_rate_equations.
  simpl obj_dict. rewrite !Hget, !Hget'. simpl.
  assert (Hrt : map proc_rate_equation (map reverse procs) =
                map Qopp (map proc_rate_equation procs)) by (rewrite !map_map; reflexivity).
  rewrite Hrt.
  split; [reflexivity|]. split; [reflexivity|]. split; [reflexivity|].
  apply dict_of_pairs_combine_Qeq. apply matT_mul_vec_neg.
Qed.

(** ** The nonzero stoichiometry view of a process *)

Lemma dict_get_In {V} (d : pydict V) k v : dict_get d k = Some v -> In (k, v) d.
Proof.
  induction d as [|[k' v'] t IH]; simpl; [discriminate|].
  destruct (String.eqb k k') eqn:E; intros H.
  - apply String.eqb_eq in E. inversion H. subst. left. reflexivity.
  - right. apply IH. exact H.
Qed.

Lemma dict_get_NoDup_In {V} (d : pydict V) k v :
  NoDup (keys d) -> In (k, v) d -> dict_get d k = Some v.
Proof.
  induction d as [|[k' v'] t IH]; simpl; [intros _ []|].
  intros Hnd [E|Hin]; inversion Hnd as [|? ? Hnot Hnd']; subst.
  - inversion E; subst. rewrite String.eqb_refl. reflexivity.
  - destruct (String.eqb k k') eqn:E.
    + apply String.eqb_eq in E. subst. exfalso. apply Hnot.
      apply in_map_iff. exists (k', v). auto.
    + apply IH; assumption.
Qed.

Lemma NoDup_keys_filter {V} (f : string * V -> bool) (d : pydict V) :
  NoDup (keys d) -> NoDup (keys (filter f d)).
Proof.
  induction d as [|[k v] t IH]; simpl; intros Hnd; [constructor|].
  inversion Hnd as [|? ? Hnot Hnd']; subst.
  destruct (f (k, v)); simpl; [|apply IH; exact Hnd'].
  constructor; [|apply IH; exact Hnd'].
  intros Hin. apply Hnot. unfold keys in *. apply in_map_iff in Hin as [kv [Hk Hin]].
  apply filter_In in Hin as [Hin _]. apply in_map_iff. eauto.
Qed.

(** X14. The [stoichiometry] view of a process has one entry per key,
    every key is one of the process's components and every value is
    nonzero; when the component IDs are distinct and aligned with the
    coefficients, every nonzero coefficient appears under its component. *)
Theorem stoichiometry_view (p : Process) :
  NoDup (keys (stoichiometry p)) /\
  (forall k v, dict_get (stoichiometry p) k = Some v ->
     In k (proc_components p) /\ ~ (v == 0)%Q) /\
  (NoDup (proc_components p) ->
   length (proc_components p) = length (proc_stoichiometry p) ->
   forall i, i < length (proc_components p) ->
   ~ (nth i (proc_stoichiometry p) 0 == 0)%Q ->
   dict_get (stoichiometry p) (nth i (proc_components p) "") =
     Some (nth i (proc_stoichiometry p) 0%Q)).
Proof.
  assert (Hnd : NoDup (keys (stoichiometry p))).
  { unfold stoichiometry. apply NoDup_keys_filter. unfold dict_of_pairs.
    apply NoDup_keys_update. constructor. }
  split; [exact Hnd|]. split.
  - intros k v H. split.
    + apply stoichiometry_keys. apply dict_get_Some_keys with v. exact H.
    + apply dict_get_In in H. unfold stoichiometry in H.
      apply filter_In in H as [_ H]. simpl in H. intros Hv.
      apply Qeq_bool_iff in Hv. rewrite Hv in H. discriminate.
  - intros Hc Hl i Hi Hnz. apply dict_get_NoDup_In; [exact Hnd|].
    unfold stoichiometry, dict_of_pairs.
    rewrite dict_update_fresh
      by (simpl; unfold keys; rewrite keys_combine by exact Hl; exact Hc).
    rewrite app_nil_l. apply filter_In. split.
    + rewrite <- combine_nth by exact Hl. apply nth_In.
      rewrite length_combine. lia.
    + simpl. destruct (Qeq_bool (nth i (proc_stoichiometry p) 0%Q) 0%Q) eqn:E; [|reflexivity].
      apply Qeq_bool_iff in E. contradiction.
Qed.
